(** * Order matching engine of [main.py]: shallow embedding and properties

    The development follows the three classes of the program:
    [AtomicInteger] (a [ctypes.c_int] cell), [Order] (a node of a singly
    linked list) and [OrderBook] (two arrays of 1024 linked lists, with
    [add_order], [_insert_order] and [match_orders]).

    Modelling choices.
    - A linked list headed by [None] or by an [Order] whose [next] field
      leads to the rest is a Rocq [list Order]; [None] is [[]].
    - The two arrays are [list (list Order)].  A ticker is a Python
      integer used as a list index: an index [i] with [0 <= i < len]
      denotes slot [i], an index with [-len <= i < 0] denotes slot
      [len + i], and every other index raises [IndexError].  On these
      arrays, [lst !! i] and [<[i := x]> lst] with an integer [i] are the
      read and the store by such an index.
    - A quantity is the value held by a [ctypes.c_int]: storing a Python
      integer keeps its low 32 bits, read back as a signed number.
    - Prices are only ever compared with each other; they are integers
      here (a number of ticks).
    - [order_type] is one of the two strings the program uses, ["Buy"] and
      ["Sell"].
    - Exceptions are explicit results.  On a book whose two arrays have
      the same length, as every book of the program has, both places of
      [add_order] that can raise do so before the first store to the
      book, so a raised exception leaves the book as it was. *)

From Stdlib Require Import ZArith List Lia Bool Sorting.Sorted.
From stdpp Require Import base list.

Local Open Scope Z_scope.

(** ** Results of fallible code *)

Inductive exn : Type :=
| TypeError
| IndexError.

Inductive result (A : Type) : Type :=
| Ok (a : A)
| Raise (e : exn)
| OutOfFuel.

Arguments Ok {A} a.
Arguments Raise {A} e.
Arguments OutOfFuel {A}.

(** The error monad, with stdpp's notation [x ← r; k]. *)
#[global] Instance result_bind : MBind result :=
  fun A B (k : A -> result B) (r : result A) =>
    match r with
    | Ok a => k a
    | Raise e => Raise e
    | OutOfFuel => OutOfFuel
    end.

(** ** Python list indexing *)

(** The slot that the index [i] denotes in a list of length [len]:
    non-negative indices count from the front, negative ones from the
    end. *)
Definition py_index (len : nat) (i : Z) : option nat :=
  if 0 <=? i then
    if i <? Z.of_nat len then Some (Z.to_nat i) else None
  else
    if - Z.of_nat len <=? i then Some (Z.to_nat (i + Z.of_nat len)) else None.

(** [lst !! i] for an integer [i]: the item [lst[i]], if the index is in
    range. *)
#[global] Instance list_lookup_py {A : Type} : Lookup Z A (list A) :=
  fun i lst =>
    match py_index (length lst) i with
    | Some k => lst !! k
    | None => None
    end.

(** [<[i := x]> lst] for an integer [i]: the list after [lst[i] = x].
    Every store of the program follows a read of the same index of the
    same list, so the store of an index out of range, which raises in
    Python, does not occur; it is the identity here. *)
#[global] Instance list_insert_py {A : Type} : Insert Z A (list A) :=
  fun i x lst =>
    match py_index (length lst) i with
    | Some k => <[k := x]> lst
    | None => lst
    end.

#[global] Arguments list_lookup_py : simpl never.
#[global] Arguments list_insert_py : simpl never.

(** The index [t] is in the range of [lst]. *)
Definition in_bounds {A : Type} (t : Z) (lst : list A) : Prop :=
  is_Some (py_index (length lst) t).

(** [lst[i]] as an expression: the item, or [IndexError]. *)
Definition getitem {A : Type} (lst : list A) (i : Z) : result A :=
  match lst !! i with
  | Some x => Ok x
  | None => Raise IndexError
  end.

(** ** class AtomicInteger *)

Module AtomicInteger.

Definition INT_MAX : Z := 2147483647.
Definition INT_MIN : Z := -2147483648.

(** [ctypes.c_int(z).value]: no overflow check, the low 32 bits of [z]
    as a signed integer. *)
Definition c_int (z : Z) : Z := (z + 2 ^ 31) mod 2 ^ 32 - 2 ^ 31.

(** The state of the object is the value of its [c_int]. *)
Definition t : Type := Z.

Definition init (value : Z) : t := c_int value.

Definition get (self : t) : Z := self.

(** [add]: the guard [ctypes.c_int(current).value == current] re-reads a
    value that was just read from a [c_int]; it holds (lemma
    [add_guard] below), so the body of [while True] runs once.  The new
    state is the stored, truncated sum; the returned value is the
    Python integer [new_value], not truncated. *)
Definition add (self : t) (delta : Z) : t * Z :=
  let current := get self in
  let new_value := current + delta in
  (c_int new_value, new_value).

Definition subtract (self : t) (delta : Z) : t * Z :=
  add self (- delta).

Definition in_range (z : Z) : Prop := INT_MIN <= z <= INT_MAX.

End AtomicInteger.

(** [min(a, b)] on two [AtomicInteger] objects.  The class defines no
    ordering method, so the comparison [b < a] made by [min] raises
    [TypeError]; no value is ever returned, hence the empty result type. *)
Definition min_objects (a b : AtomicInteger.t) : result Empty_set :=
  Raise TypeError.

(** ** class Order *)

Inductive OrderType : Type :=
| Buy
| Sell.

Definition OrderType_eqb (a b : OrderType) : bool :=
  match a, b with
  | Buy, Buy | Sell, Sell => true
  | _, _ => false
  end.

(** The [next] field is the tail of the list the order sits in. *)
Record Order : Type := mkOrder {
  order_type : OrderType;
  ticker : Z;
  quantity : AtomicInteger.t;
  price : Z
}.

Definition Order_init (order_type : OrderType) (ticker : Z)
    (quantity price : Z) : Order :=
  mkOrder order_type ticker (AtomicInteger.init quantity) price.

Definition set_quantity (o : Order) (q : AtomicInteger.t) : Order :=
  mkOrder (order_type o) (ticker o) q (price o).

(** An executed trade, the tuple [(price, matched_quantity, ticker)]. *)
Record Fill : Type := mkFill {
  fill_price : Z;
  fill_quantity : Z;
  fill_ticker : Z
}.

(** ** class OrderBook *)

Record OrderBook : Type := mkBook {
  buy_orders : list (list Order);
  sell_orders : list (list Order)
}.

Definition OrderBook_init : OrderBook :=
  mkBook (replicate 1024%nat []) (replicate 1024%nat []).

Definition set_buy_orders (b : OrderBook) (l : list (list Order)) : OrderBook :=
  mkBook l (sell_orders b).

Definition set_sell_orders (b : OrderBook) (l : list (list Order)) : OrderBook :=
  mkBook (buy_orders b) l.

(** *** _insert_order *)

(** The condition of the traversal loop: [current.next] has strictly
    higher priority than the new order. *)
Definition ahead_of (nxt new_order : Order) : bool :=
  (OrderType_eqb (order_type new_order) Buy && (price nxt >? price new_order))
  || (OrderType_eqb (order_type new_order) Sell && (price nxt <? price new_order)).

(** The condition under which the new order becomes the head. *)
Definition takes_head (head new_order : Order) : bool :=
  (OrderType_eqb (order_type new_order) Buy && (price head <=? price new_order))
  || (OrderType_eqb (order_type new_order) Sell && (price head >=? price new_order)).

(** The [while] loop of [_insert_order]: the argument is [current.next],
    the result is what [current.next] is once the new order is linked in. *)
Fixpoint link_after (new_order : Order) (current_next : list Order) : list Order :=
  match current_next with
  | nxt :: rest =>
      if ahead_of nxt new_order
      then nxt :: link_after new_order rest
      else new_order :: nxt :: rest
  | [] => [new_order]
  end.

(** The linked list of one slot after the insertion. *)
Definition insert_chain (head : list Order) (new_order : Order) : list Order :=
  match head with
  | [] => [new_order]
  | h :: rest =>
      if takes_head h new_order
      then new_order :: h :: rest
      else h :: link_after new_order rest
  end.

Definition _insert_order (order_list : list (list Order)) (ticker : Z)
    (new_order : Order) : result (list (list Order)) :=
  head ← getitem order_list ticker;
  Ok (<[ticker := insert_chain head new_order]> order_list).

(** *** match_orders *)

(** The [Buy] branch.  [sell_orders] is the local variable of that name,
    the head of the list in slot [ticker]; the resting order it points to
    is updated in place, so the slot is rewritten with it.  [fuel] bounds
    the number of iterations. *)
Fixpoint match_buy_loop (fuel : nat) (self : OrderBook) (new_order : Order)
    (sell_orders_ : list Order) (executed_trades : list Fill)
    : result (OrderBook * Order * list Fill) :=
  match fuel with
  | O => OutOfFuel
  | S fuel' =>
      match sell_orders_ with
      | [] => Ok (self, new_order, executed_trades)
      | s :: next =>
          if price s <=? price new_order then
            let matched_quantity :=
              Z.min (AtomicInteger.get (quantity new_order))
                    (AtomicInteger.get (quantity s)) in
            let executed_trades :=
              executed_trades ++
                [mkFill (price new_order) matched_quantity (ticker new_order)] in
            let '(sq, r1) := AtomicInteger.subtract (quantity s) matched_quantity in
            let self :=
              set_sell_orders self
                (<[ticker new_order := set_quantity s sq :: next]> (sell_orders self)) in
            let self :=
              if r1 =? 0
              then set_sell_orders self (<[ticker new_order := next]> (sell_orders self))
              else self in
            let '(nq, r2) := AtomicInteger.subtract (quantity new_order) matched_quantity in
            let new_order := set_quantity new_order nq in
            if r2 =? 0 then Ok (self, new_order, executed_trades)
            else
              sell_orders_ ← getitem (sell_orders self) (ticker new_order);
              match_buy_loop fuel' self new_order sell_orders_ executed_trades
          else Ok (self, new_order, executed_trades)
      end
  end.

(** The [Sell] branch.  Its first statement in the loop body is
    [min(new_order.quantity, buy_orders.quantity)], on the two objects;
    nothing after it is reached. *)
Definition match_sell_loop (self : OrderBook) (new_order : Order)
    (buy_orders_ : list Order) (executed_trades : list Fill)
    : result (OrderBook * Order * list Fill) :=
  match buy_orders_ with
  | [] => Ok (self, new_order, executed_trades)
  | bo :: next =>
      if price bo >=? price new_order then
        matched_quantity ← min_objects (quantity new_order) (quantity bo);
        match matched_quantity : Empty_set with end
      else Ok (self, new_order, executed_trades)
  end.

(** One more iteration than there are resting orders in the slot is
    always enough (theorem [match_buy_loop_fuel]). *)
Definition match_orders (self : OrderBook) (new_order : Order)
    : result (OrderBook * Order * list Fill) :=
  let executed_trades := [] in
  match order_type new_order with
  | Buy =>
      sell_orders_ ← getitem (sell_orders self) (ticker new_order);
      match_buy_loop (S (length sell_orders_)) self new_order sell_orders_
        executed_trades
  | Sell =>
      buy_orders_ ← getitem (buy_orders self) (ticker new_order);
      match_sell_loop self new_order buy_orders_ executed_trades
  end.

(** *** add_order *)

Definition add_order (self : OrderBook) (order_type : OrderType) (ticker : Z)
    (quantity_ price : Z) : result (OrderBook * list Fill) :=
  let new_order := Order_init order_type ticker quantity_ price in
  '(self, new_order, executed_trades) ← match_orders self new_order;
  if AtomicInteger.get (quantity new_order) >? 0 then
    match order_type with
    | Buy =>
        order_list ← _insert_order (buy_orders self) ticker new_order;
        Ok (set_buy_orders self order_list, executed_trades)
    | Sell =>
        order_list ← _insert_order (sell_orders self) ticker new_order;
        Ok (set_sell_orders self order_list, executed_trades)
    end
  else Ok (self, executed_trades).

(** ** The driver: submissions executed one after the other *)

Record Submission : Type := mkSubmission {
  sub_type : OrderType;
  sub_ticker : Z;
  sub_quantity : Z;
  sub_price : Z
}.

(** Consecutive calls of [add_order] on one book, as the loop of
    [simulate_trading] makes them; the trades of all calls are collected.
    The first exception ends the run. *)
Fixpoint run (self : OrderBook) (subs : list Submission)
    : result (OrderBook * list Fill) :=
  match subs with
  | [] => Ok (self, [])
  | s :: rest =>
      '(self, trades) ← add_order self (sub_type s) (sub_ticker s)
                          (sub_quantity s) (sub_price s);
      '(self, more) ← run self rest;
      Ok (self, trades ++ more)
  end.

(** ** Notions used in the statements *)

(** What the [Buy] loop does to the list of one slot, by recursion on that
    list: the remaining list, the remaining quantity of the incoming order
    and the trades, for an incoming order of price [p], ticker [t] and
    quantity [n].  The matched quantity is one of the two quantities, so
    an iteration drains the resting order, the incoming order or both;
    lemma [match_buy_loop_sweep] relates the loop to this function. *)
Fixpoint sweep (p : Z) (t : Z) (n : Z) (sells : list Order)
    : list Order * Z * list Fill :=
  match sells with
  | [] => ([], n, [])
  | s :: next =>
      if price s <=? p then
        let m := Z.min n (quantity s) in
        if quantity s - m =? 0 then
          if n - m =? 0
          then (next, AtomicInteger.c_int (n - m), [mkFill p m t])
          else
            let '(l, n', fs) := sweep p t (AtomicInteger.c_int (n - m)) next in
            (l, n', mkFill p m t :: fs)
        else
          (set_quantity s (AtomicInteger.c_int (quantity s - m)) :: next,
           AtomicInteger.c_int (n - m), [mkFill p m t])
      else (sells, n, [])
  end.

(** Orders of a [Buy] list by descending price, of a [Sell] list by
    ascending price. *)
Definition price_le (side : OrderType) (a b : Order) : Prop :=
  match side with
  | Buy => price b <= price a
  | Sell => price a <= price b
  end.

(** [a] has strictly better price than [b] on the given side. *)
Definition price_lt (side : OrderType) (a b : Order) : Prop :=
  match side with
  | Buy => price b < price a
  | Sell => price a < price b
  end.

Definition best_first (side : OrderType) (l : list Order) : Prop :=
  Sorted (price_le side) l.

(** A resting quantity: a positive value of a [c_int]. *)
Definition resting (o : Order) : Prop :=
  0 < quantity o <= AtomicInteger.INT_MAX.

Definition side_inv (side : OrderType) (l : list Order) : Prop :=
  best_first side l /\ Forall resting l.

Definition side_list (b : OrderBook) (side : OrderType) : list (list Order) :=
  match side with
  | Buy => buy_orders b
  | Sell => sell_orders b
  end.

Definition opposite (side : OrderType) : OrderType :=
  match side with
  | Buy => Sell
  | Sell => Buy
  end.

(** Every list of the book is ordered best price first. *)
Definition book_best_first (b : OrderBook) : Prop :=
  forall side (k : nat) l, side_list b side !! k = Some l -> best_first side l.

(** Every resting quantity of the book is a positive [c_int]. *)
Definition book_resting (b : OrderBook) : Prop :=
  forall side (k : nat) l, side_list b side !! k = Some l -> Forall resting l.

(** The Book Side invariant, for every list of the book ([k] is the
    position of the slot in the array). *)
Definition book_inv (b : OrderBook) : Prop :=
  forall side (k : nat) l, side_list b side !! k = Some l -> side_inv side l.

(** The list that the index [t] denotes, empty when [t] is out of range. *)
Definition slot (lst : list (list Order)) (t : Z) : list Order :=
  default [] (lst !! t).

Definition total_quantity (l : list Order) : Z :=
  foldr (fun o acc => quantity o + acc) 0 l.

Definition resting_total (b : OrderBook) (t : Z) : Z :=
  total_quantity (slot (buy_orders b) t) + total_quantity (slot (sell_orders b) t).

Definition filled_total (fs : list Fill) : Z :=
  foldr (fun f acc => fill_quantity f + acc) 0 fs.

Definition submitted_total (subs : list Submission) : Z :=
  foldr (fun s acc => sub_quantity s + acc) 0 subs.

(** A quantity that a [c_int] holds unchanged and that is positive. *)
Definition valid_quantity (q : Z) : Prop := 0 < q <= AtomicInteger.INT_MAX.

(** The outcome of the matching phase on the opposite list [opp] of the
    slot: [None] when the [Sell] branch reaches its [min]. *)
Definition matching (side : OrderType) (p : Z) (t : Z) (n : Z)
    (opp : list Order) : option (list Order * Z * list Fill) :=
  match side with
  | Buy => Some (sweep p t n opp)
  | Sell =>
      match opp with
      | [] => Some (opp, n, [])
      | bo :: _ => if price bo >=? p then None else Some (opp, n, [])
      end
  end.

Definition set_side (b : OrderBook) (side : OrderType) (lst : list (list Order))
    : OrderBook :=
  match side with
  | Buy => set_buy_orders b lst
  | Sell => set_sell_orders b lst
  end.

(** The book after a call that returned: the opposite slot holds what
    the matching phase left, and the incoming order is linked into its own
    slot exactly when some quantity of it remains. *)
Definition book_after (self : OrderBook) (ot : OrderType) (t : Z) (p : Z)
    (l : list Order) (n' : Z) (b' : OrderBook) : Prop :=
  let self1 :=
    set_side self (opposite ot) (<[t := l]> (side_list self (opposite ot))) in
  (n' <= 0 /\ b' = self1) \/
  (0 < n' /\ exists head,
     side_list self ot !! t = Some head /\
     b' = set_side self1 ot
            (<[t := insert_chain head (mkOrder ot t n' p)]> (side_list self ot))).

(** The crossing condition of the two loops of [match_orders], for a
    resting order [o] of the opposite side. *)
Definition crosses (side : OrderType) (p : Z) (o : Order) : bool :=
  match side with
  | Buy => price o <=? p
  | Sell => price o >=? p
  end.

(** The initial book with the list [l] put in slot [t] of one side. *)
Definition book_with (side : OrderType) (t : Z) (l : list Order) : OrderBook :=
  set_side OrderBook_init side (<[t := l]> (side_list OrderBook_init side)).

(** ** Further notions: what the book holds *)

(** Every order is filed in the array of its own side, in the slot that
    its own ticker denotes. *)
Definition book_filed (b : OrderBook) : Prop :=
  forall side (k : nat) l,
    side_list b side !! k = Some l ->
    Forall (fun o => order_type o = side /\
                     py_index (length (side_list b side)) (ticker o) = Some k) l.

(** No resting [Buy] of a slot is priced at or above a resting [Sell] of
    the same slot. *)
Definition book_uncrossed (b : OrderBook) : Prop :=
  forall (k : nat) bl sl,
    buy_orders b !! k = Some bl ->
    sell_orders b !! k = Some sl ->
    Forall (fun bo => Forall (fun so => price bo < price so) sl) bl.

(** The quantity on offer to a [Buy] at price [p]: the orders at the
    front of the list, as long as their price is at most [p]. *)
Fixpoint crossing_quantity (p : Z) (sells : list Order) : Z :=
  match sells with
  | [] => 0
  | s :: next =>
      if price s <=? p then quantity s + crossing_quantity p next else 0
  end.

(** ** Proof steps used more than once *)

(** The cases of one iteration of the [Buy] loop. *)
Ltac sweep_cases s n p :=
  cbn [sweep];
  destruct (price s <=? p) eqn:Hcross;
  [ destruct (quantity s - Z.min n (quantity s) =? 0) eqn:Hs;
    [ destruct (n - Z.min n (quantity s) =? 0) eqn:Hn | ] | ].

(** ** Facts about [AtomicInteger] *)

Lemma c_int_id z : AtomicInteger.in_range z -> AtomicInteger.c_int z = z.
Proof.
  unfold AtomicInteger.in_range, AtomicInteger.INT_MIN, AtomicInteger.INT_MAX,
    AtomicInteger.c_int.
  intros H. rewrite Z.mod_small; lia.
Qed.

Lemma c_int_in_range z : AtomicInteger.in_range (AtomicInteger.c_int z).
Proof.
  unfold AtomicInteger.in_range, AtomicInteger.INT_MIN, AtomicInteger.INT_MAX,
    AtomicInteger.c_int.
  pose proof (Z.mod_pos_bound (z + 2 ^ 31) (2 ^ 32)). lia.
Qed.

(** The guard of [add] holds for every value read from a [c_int]. *)
Lemma add_guard z :
  AtomicInteger.c_int (AtomicInteger.c_int z) = AtomicInteger.c_int z.
Proof. apply c_int_id, c_int_in_range. Qed.

Lemma c_int_valid q : valid_quantity q -> AtomicInteger.c_int q = q.
Proof.
  intros H. apply c_int_id. revert H.
  unfold valid_quantity, AtomicInteger.in_range, AtomicInteger.INT_MIN,
    AtomicInteger.INT_MAX. lia.
Qed.

Lemma c_int_0 : AtomicInteger.c_int 0 = 0.
Proof. reflexivity. Qed.

(** ** Records and slots *)

Lemma set_quantity_same o : set_quantity o (quantity o) = o.
Proof. now destruct o. Qed.

Lemma set_sell_orders_same b : set_sell_orders b (sell_orders b) = b.
Proof. now destruct b. Qed.

Lemma set_buy_orders_same b : set_buy_orders b (buy_orders b) = b.
Proof. now destruct b. Qed.

Lemma getitem_Some {A} (lst : list A) i x : lst !! i = Some x -> getitem lst i = Ok x.
Proof. unfold getitem. now intros ->. Qed.

Lemma getitem_None {A} (lst : list A) i :
  lst !! i = None -> getitem lst i = Raise IndexError.
Proof. unfold getitem. now intros ->. Qed.

(** ** Reads and stores by a Python index *)

Section py_list.
Context {A : Type}.
Implicit Types (lst : list A) (t : Z) (k : nat) (x y : A).

Lemma py_index_lt len t k : py_index len t = Some k -> (k < len)%nat.
Proof.
  unfold py_index.
  destruct (0 <=? t) eqn:H0.
  - destruct (t <? Z.of_nat len) eqn:H1; [|discriminate]. intros [= <-]. lia.
  - destruct (- Z.of_nat len <=? t) eqn:H1; [|discriminate]. intros [= <-]. lia.
Qed.

Lemma py_index_None len t :
  py_index len t = None <-> t < - Z.of_nat len \/ Z.of_nat len <= t.
Proof.
  unfold py_index.
  destruct (0 <=? t) eqn:H0.
  - destruct (t <? Z.of_nat len) eqn:H1.
    + split; [discriminate|lia].
    + split; [intros _; right; lia|reflexivity].
  - destruct (- Z.of_nat len <=? t) eqn:H1.
    + split; [discriminate|lia].
    + split; [intros _; left; lia|reflexivity].
Qed.

Lemma py_index_nonneg len t :
  0 <= t -> t < Z.of_nat len -> py_index len t = Some (Z.to_nat t).
Proof.
  intros H0 H1. unfold py_index.
  assert (Ha : (0 <=? t) = true) by lia.
  assert (Hb : (t <? Z.of_nat len) = true) by lia.
  now rewrite Ha, Hb.
Qed.

Lemma py_index_nonneg_Some len t k :
  0 <= t -> py_index len t = Some k -> k = Z.to_nat t.
Proof.
  intros H0. unfold py_index.
  assert (Ha : (0 <=? t) = true) by lia. rewrite Ha.
  destruct (t <? Z.of_nat len); [|discriminate]. now intros [= <-].
Qed.

Lemma py_index_of_nat len k :
  (k < len)%nat -> py_index len (Z.of_nat k) = Some k.
Proof. intros H. rewrite py_index_nonneg by lia. now rewrite Nat2Z.id. Qed.

Lemma pyl_lookup_unfold lst t :
  lst !! t = match py_index (length lst) t with
             | Some k => lst !! k
             | None => None
             end.
Proof. reflexivity. Qed.

Lemma pyl_insert_unfold lst t x :
  <[t := x]> lst = match py_index (length lst) t with
                   | Some k => <[k := x]> lst
                   | None => lst
                   end.
Proof. reflexivity. Qed.

Lemma pyl_lookup_Some lst t x :
  lst !! t = Some x <->
  exists k, py_index (length lst) t = Some k /\ lst !! k = Some x.
Proof.
  rewrite pyl_lookup_unfold. destruct (py_index (length lst) t) as [k|].
  - split; [eauto|]. now intros (k' & [= <-] & H).
  - split; [discriminate|]. now intros (k' & [=] & _).
Qed.

Lemma pyl_lookup_index lst t k :
  py_index (length lst) t = Some k -> lst !! t = lst !! k.
Proof. intros H. now rewrite pyl_lookup_unfold, H. Qed.

Lemma pyl_insert_index lst t k x :
  py_index (length lst) t = Some k -> <[t := x]> lst = <[k := x]> lst.
Proof. intros H. now rewrite pyl_insert_unfold, H. Qed.

Lemma pyl_lookup_of_nat lst k : lst !! Z.of_nat k = lst !! k.
Proof.
  destruct (decide (k < length lst)%nat) as [Hlt|Hge].
  - now rewrite (pyl_lookup_index _ _ k) by now apply py_index_of_nat.
  - rewrite pyl_lookup_unfold.
    assert (Hn : py_index (length lst) (Z.of_nat k) = None)
      by (apply py_index_None; lia).
    rewrite Hn. symmetry. apply lookup_ge_None. lia.
Qed.

Lemma pyl_lookup_None lst t :
  lst !! t = None <-> py_index (length lst) t = None.
Proof.
  rewrite pyl_lookup_unfold. destruct (py_index (length lst) t) as [k|] eqn:Hk.
  - split; [|discriminate]. intros Hn. apply lookup_ge_None in Hn.
    apply py_index_lt in Hk. lia.
  - tauto.
Qed.

Lemma pyl_length_insert lst t x : length (<[t := x]> lst) = length lst.
Proof.
  rewrite pyl_insert_unfold. destruct (py_index (length lst) t); [|reflexivity].
  apply length_insert.
Qed.

Lemma pyl_lookup_in_bounds lst t x : lst !! t = Some x -> in_bounds t lst.
Proof. intros H. apply pyl_lookup_Some in H as (k & Hk & _). now exists k. Qed.

Lemma pyl_in_bounds_lookup lst t : in_bounds t lst -> is_Some (lst !! t).
Proof.
  intros [k Hk]. rewrite (pyl_lookup_index _ _ _ Hk).
  apply lookup_lt_is_Some. now apply py_index_lt in Hk.
Qed.

Lemma pyl_lookup_insert_eq lst t x : in_bounds t lst -> <[t := x]> lst !! t = Some x.
Proof.
  intros [k Hk]. rewrite (pyl_insert_index _ _ _ _ Hk).
  rewrite (pyl_lookup_index _ _ k) by now rewrite length_insert.
  apply list_lookup_insert_eq. now apply py_index_lt in Hk.
Qed.

Lemma pyl_lookup_insert_ne lst t t' x :
  py_index (length lst) t <> py_index (length lst) t' ->
  <[t := x]> lst !! t' = lst !! t'.
Proof.
  intros Hne. rewrite (pyl_lookup_unfold (<[t := x]> lst)), pyl_length_insert.
  rewrite (pyl_lookup_unfold lst t').
  destruct (py_index (length lst) t') as [k'|]; [|reflexivity].
  rewrite pyl_insert_unfold.
  destruct (py_index (length lst) t) as [k|]; [|reflexivity].
  apply list_lookup_insert_ne. congruence.
Qed.

(** A store by an index reads back, at the position [k], as the stored
    item if the index denotes [k] and as the old item otherwise. *)
Lemma pyl_insert_lookup_nat lst t x k y :
  <[t := x]> lst !! k = Some y ->
  (py_index (length lst) t = Some k /\ x = y) \/ lst !! k = Some y.
Proof.
  rewrite pyl_insert_unfold.
  destruct (py_index (length lst) t) as [k0|]; [|auto].
  intros H. apply list_lookup_insert_Some in H as [(<- & <- & _)|[_ H]]; auto.
Qed.

Lemma pyl_insert_lookup_nat_ne lst t x k :
  py_index (length lst) t <> Some k -> <[t := x]> lst !! k = lst !! k.
Proof.
  intros Hne. rewrite pyl_insert_unfold.
  destruct (py_index (length lst) t) as [k0|]; [|reflexivity].
  apply list_lookup_insert_ne. congruence.
Qed.

Lemma pyl_insert_id lst t x : lst !! t = Some x -> <[t := x]> lst = lst.
Proof.
  intros H. apply pyl_lookup_Some in H as (k & Hk & H).
  rewrite (pyl_insert_index _ _ _ _ Hk). now apply list_insert_id.
Qed.

Lemma pyl_insert_insert_eq lst t x y :
  <[t := x]> (<[t := y]> lst) = <[t := x]> lst.
Proof.
  rewrite (pyl_insert_unfold (<[t := y]> lst)), pyl_length_insert.
  rewrite !pyl_insert_unfold.
  destruct (py_index (length lst) t); [|reflexivity].
  apply list_insert_insert_eq.
Qed.

Lemma pyl_insert_insert_ne lst t t' x y :
  py_index (length lst) t <> py_index (length lst) t' ->
  <[t := x]> (<[t' := y]> lst) = <[t' := y]> (<[t := x]> lst).
Proof.
  intros Hne.
  rewrite (pyl_insert_unfold (<[t' := y]> lst)), pyl_length_insert.
  rewrite (pyl_insert_unfold (<[t := x]> lst) t'), pyl_length_insert.
  rewrite !pyl_insert_unfold.
  destruct (py_index (length lst) t) as [k|];
    destruct (py_index (length lst) t') as [k'|]; try reflexivity.
  apply list_insert_insert_ne. congruence.
Qed.

(** Two different non-negative indices never denote the same slot. *)
Lemma py_index_nonneg_ne len t t' :
  0 <= t -> 0 <= t' -> t <> t' ->
  py_index len t <> py_index len t' \/
  (py_index len t = None /\ py_index len t' = None).
Proof.
  intros H0 H0' Hne.
  destruct (py_index len t) as [k|] eqn:Hk;
    destruct (py_index len t') as [k'|] eqn:Hk'; auto; try (left; discriminate).
  left. apply py_index_nonneg_Some in Hk, Hk'; try assumption.
  intros [= Heq]. subst. apply Hne. lia.
Qed.

Lemma pyl_lookup_insert_nonneg_ne lst t t' x :
  0 <= t -> 0 <= t' -> t <> t' -> <[t := x]> lst !! t' = lst !! t'.
Proof.
  intros H0 H0' Hne.
  destruct (py_index_nonneg_ne (length lst) t t' H0 H0' Hne) as [H|[H _]].
  - now apply pyl_lookup_insert_ne.
  - now rewrite pyl_insert_unfold, H.
Qed.

End py_list.

Lemma slot_insert lst t l : in_bounds t lst -> slot (<[t := l]> lst) t = l.
Proof. intros H. unfold slot. now rewrite pyl_lookup_insert_eq. Qed.

Lemma slot_Some lst t l : lst !! t = Some l -> slot lst t = l.
Proof. unfold slot. now intros ->. Qed.

(** ** The [Buy] loop computes [sweep] and never runs out of fuel *)

Lemma match_buy_loop_sweep fuel self new_order sells trades :
  sell_orders self !! ticker new_order = Some sells ->
  (length sells < fuel)%nat ->
  match_buy_loop fuel self new_order sells trades =
    let '(l, n', fs) :=
      sweep (price new_order) (ticker new_order) (quantity new_order) sells in
    Ok (set_sell_orders self (<[ticker new_order := l]> (sell_orders self)),
        set_quantity new_order n', trades ++ fs).
Proof.
  revert self new_order sells trades.
  induction fuel as [|fuel IH]; intros self new_order sells trades Hslot Hfuel.
  - simpl in Hfuel. lia.
  - destruct sells as [|s next].
    + simpl. rewrite (pyl_insert_id _ _ _ Hslot), set_sell_orders_same,
        set_quantity_same, app_nil_r. reflexivity.
    + cbn [match_buy_loop sweep].
      destruct (price s <=? price new_order) eqn:Hcross.
      2:{ rewrite (pyl_insert_id _ _ _ Hslot), set_sell_orders_same,
            set_quantity_same, app_nil_r. reflexivity. }
      unfold AtomicInteger.subtract, AtomicInteger.add, AtomicInteger.get.
      cbn [sell_orders set_sell_orders buy_orders].
      set (m := Z.min (quantity new_order) (quantity s)).
      replace (quantity s + - m) with (quantity s - m) by lia.
      replace (quantity new_order + - m) with (quantity new_order - m) by lia.
      assert (Hlen : in_bounds (ticker new_order) (sell_orders self))
        by (eapply pyl_lookup_in_bounds; eauto).
      destruct (quantity s - m =? 0) eqn:Hs.
      * rewrite pyl_insert_insert_eq.
        destruct (quantity new_order - m =? 0) eqn:Hn; [reflexivity|].
        cbn [sell_orders].
        rewrite (getitem_Some _ _ next) by now apply pyl_lookup_insert_eq.
        cbn [mbind result_bind].
        rewrite IH; cbn [sell_orders set_quantity ticker price quantity].
        -- destruct (sweep _ _ _ next) as [[l n'] fs].
           unfold set_sell_orders, set_quantity. cbn.
           rewrite pyl_insert_insert_eq, <- app_assoc. reflexivity.
        -- now apply pyl_lookup_insert_eq.
        -- simpl in Hfuel. lia.
      * assert (Hn : quantity new_order - m = 0) by (apply Z.eqb_neq in Hs; lia).
        rewrite Hn. reflexivity.
Qed.

(** ** What [add_order] returns *)

Lemma side_list_set_side_ne b side lst :
  side_list (set_side b (opposite side) lst) side = side_list b side.
Proof. now destruct side. Qed.

Lemma side_list_set_side b side lst : side_list (set_side b side lst) side = lst.
Proof. now destruct side. Qed.

Lemma set_side_same b side : set_side b side (side_list b side) = b.
Proof. destruct side, b; reflexivity. Qed.

Lemma match_orders_spec self ot t n p opp :
  side_list self (opposite ot) !! t = Some opp ->
  match_orders self (mkOrder ot t n p) =
    match matching ot p t n opp with
    | Some (l, n', fs) =>
        Ok (set_side self (opposite ot) (<[t := l]> (side_list self (opposite ot))),
            mkOrder ot t n' p, fs)
    | None => Raise TypeError
    end.
Proof.
  intros Hopp. unfold match_orders.
  destruct ot; cbn [side_list opposite] in Hopp;
    cbn [order_type ticker price quantity side_list opposite matching set_side];
    rewrite (getitem_Some _ _ _ Hopp); cbn [mbind result_bind].
  - rewrite (match_buy_loop_sweep _ self (mkOrder Buy t n p) opp [] Hopp)
      by (cbn; lia).
    cbn [order_type ticker price quantity].
    now destruct (sweep p t n opp) as [[l n'] fs].
  - unfold match_sell_loop. cbn [price quantity].
    destruct opp as [|bo next].
    + now rewrite (pyl_insert_id _ _ _ Hopp), set_buy_orders_same.
    + destruct (price bo >=? p); [reflexivity|].
      now rewrite (pyl_insert_id _ _ _ Hopp), set_buy_orders_same.
Qed.

Lemma match_orders_index self ot t n p :
  side_list self (opposite ot) !! t = None ->
  match_orders self (mkOrder ot t n p) = Raise IndexError.
Proof.
  intros Hopp. unfold match_orders.
  destruct ot; cbn [side_list opposite] in Hopp; cbn [order_type ticker];
    now rewrite (getitem_None _ _ Hopp).
Qed.

Lemma add_order_Ok self ot t q p b' fills :
  add_order self ot t q p = Ok (b', fills) ->
  exists opp l n',
    side_list self (opposite ot) !! t = Some opp /\
    matching ot p t (AtomicInteger.c_int q) opp = Some (l, n', fills) /\
    book_after self ot t p l n' b'.
Proof.
  unfold add_order, Order_init, AtomicInteger.init. intros H.
  destruct (side_list self (opposite ot) !! t) as [opp|] eqn:Hopp.
  2:{ rewrite (match_orders_index _ _ _ _ _ Hopp) in H. discriminate. }
  rewrite (match_orders_spec _ _ _ _ _ _ Hopp) in H.
  exists opp.
  destruct (matching ot p t (AtomicInteger.c_int q) opp) as [[[l n'] fs]|];
    [|discriminate].
  cbn [mbind result_bind quantity] in H. unfold AtomicInteger.get in H.
  exists l, n'. split; [reflexivity|].
  destruct (n' >? 0) eqn:Hn.
  - apply Z.gtb_lt in Hn. unfold _insert_order in H.
    assert (Hs : forall lst, side_list (set_side self (opposite ot) lst) ot
                             = side_list self ot)
      by (intros; apply side_list_set_side_ne).
    destruct (side_list self ot !! t) as [head|] eqn:Hhead.
    + destruct ot; cbn in Hs, Hhead, H |- *;
        rewrite (getitem_Some _ _ _ Hhead) in H; cbn in H;
        injection H as <- <-; (split; [reflexivity|]);
        right; (split; [lia|]); exists head; (split; [assumption|reflexivity]).
    + destruct ot; cbn in Hs, Hhead, H |- *;
        rewrite (getitem_None _ _ Hhead) in H; discriminate.
  - assert (n' <= 0) by (rewrite Z.gtb_ltb in Hn; apply Z.ltb_ge in Hn; lia).
    destruct ot; cbn in H |- *; injection H as <- <-;
      (split; [reflexivity|]); left; (split; [lia|reflexivity]).
Qed.

(** The converse: these conditions make the call return. *)
Lemma add_order_returns self ot t q p opp l n' fs head :
  side_list self (opposite ot) !! t = Some opp ->
  side_list self ot !! t = Some head ->
  matching ot p t (AtomicInteger.c_int q) opp = Some (l, n', fs) ->
  exists b', add_order self ot t q p = Ok (b', fs) /\ book_after self ot t p l n' b'.
Proof.
  intros Hopp Hhead Hm.
  unfold add_order, Order_init, AtomicInteger.init.
  rewrite (match_orders_spec _ _ _ _ _ _ Hopp), Hm.
  cbn [mbind result_bind quantity]. unfold AtomicInteger.get, book_after.
  destruct (n' >? 0) eqn:Hn.
  - apply Z.gtb_lt in Hn. unfold _insert_order.
    destruct ot; cbn in Hopp, Hhead |- *;
      rewrite (getitem_Some _ _ _ Hhead); cbn;
      eexists; (split; [reflexivity|]); right; (split; [lia|]);
      exists head; (split; [assumption|reflexivity]).
  - assert (n' <= 0) by (rewrite Z.gtb_ltb in Hn; apply Z.ltb_ge in Hn; lia).
    destruct ot; cbn; eexists; (split; [reflexivity|]); left;
      (split; [lia|reflexivity]).
Qed.

(** The conditions of [add_order_Ok] make the call return that book. *)
Lemma add_order_of_after self ot t q p opp l n' fs b' :
  side_list self (opposite ot) !! t = Some opp ->
  matching ot p t (AtomicInteger.c_int q) opp = Some (l, n', fs) ->
  book_after self ot t p l n' b' ->
  add_order self ot t q p = Ok (b', fs).
Proof.
  intros Hopp Hm Hafter.
  unfold add_order, Order_init, AtomicInteger.init.
  rewrite (match_orders_spec _ _ _ _ _ _ Hopp), Hm.
  cbn [mbind result_bind quantity]. unfold AtomicInteger.get.
  unfold book_after in Hafter.
  destruct Hafter as [[Hn ->]|(Hn & head & Hhead & ->)].
  - assert (Hgt : (n' >? 0) = false) by lia. rewrite Hgt. now destruct ot.
  - assert (Hgt : (n' >? 0) = true) by lia. rewrite Hgt.
    unfold _insert_order.
    destruct ot; cbn [side_list opposite set_side set_buy_orders set_sell_orders
                        buy_orders sell_orders] in Hhead |- *;
      rewrite (getitem_Some _ _ _ Hhead); reflexivity.
Qed.

(** [add_order] never exhausts the fuel of the matching loop: the model
    is total. *)
Lemma add_order_total self ot t q p : add_order self ot t q p <> OutOfFuel.
Proof.
  unfold add_order, Order_init, AtomicInteger.init.
  destruct (side_list self (opposite ot) !! t) as [opp|] eqn:Hopp.
  2:{ now rewrite (match_orders_index _ _ _ _ _ Hopp). }
  rewrite (match_orders_spec _ _ _ _ _ _ Hopp).
  destruct (matching ot p t (AtomicInteger.c_int q) opp) as [[[l n'] fs]|];
    [|discriminate].
  cbn [mbind result_bind quantity].
  destruct (AtomicInteger.get n' >? 0); [|discriminate].
  unfold _insert_order, getitem.
  destruct ot; cbn.
  - now destruct (buy_orders self !! t).
  - now destruct (sell_orders self !! t).
Qed.

(** ** Properties of the matching sweep *)

Lemma sweep_fills p t n sells l n' fs :
  sweep p t n sells = (l, n', fs) ->
  Forall (fun f => fill_price f = p /\ fill_ticker f = t) fs.
Proof.
  revert n l n' fs. induction sells as [|s next IH]; intros n l n' fs.
  - cbn. intros [= <- <- <-]. constructor.
  - sweep_cases s n p.
    + intros [= <- <- <-]. repeat constructor.
    + destruct (sweep p t _ next) as [[l0 n0] fs0] eqn:Hrec.
      intros [= <- <- <-]. constructor; [now split|]. eapply IH; eauto.
    + intros [= <- <- <-]. repeat constructor.
    + intros [= <- <- <-]. constructor.
Qed.

Lemma Sorted_set_quantity side s q next :
  Sorted (price_le side) (s :: next) ->
  Sorted (price_le side) (set_quantity s q :: next).
Proof.
  intros H. apply Sorted_inv in H as [Hs Hhd]. constructor; [assumption|].
  destruct Hhd; constructor. destruct side; assumption.
Qed.

Lemma sweep_best_first side p t n sells l n' fs :
  sweep p t n sells = (l, n', fs) ->
  best_first side sells -> best_first side l.
Proof.
  unfold best_first.
  revert n l n' fs. induction sells as [|s next IH]; intros n l n' fs.
  - cbn. now intros [= <- <- <-].
  - sweep_cases s n p.
    + intros [= <- <- <-] H. now apply Sorted_inv in H.
    + destruct (sweep p t _ next) as [[l0 n0] fs0] eqn:Hrec.
      intros [= <- <- <-] H. apply Sorted_inv in H as [H _]. eapply IH; eauto.
    + intros [= <- <- <-] H. now apply Sorted_set_quantity.
    + now intros [= <- <- <-].
Qed.

Lemma sweep_resting p t n sells l n' fs :
  sweep p t n sells = (l, n', fs) ->
  Forall resting sells -> 0 <= n <= AtomicInteger.INT_MAX ->
  Forall resting l /\ 0 <= n' <= n.
Proof.
  unfold resting, AtomicInteger.INT_MAX.
  revert n l n' fs. induction sells as [|s next IH]; intros n l n' fs.
  - cbn. intros [= <- <- <-]. split; [constructor|lia].
  - sweep_cases s n p; intros Heq Hall Hn0;
      apply Forall_cons in Hall as [Hs0 Hall].
    + injection Heq as <- <- <-. apply Z.eqb_eq in Hn. rewrite Hn, c_int_0.
      split; [assumption|lia].
    + destruct (sweep p t _ next) as [[l0 n0] fs0] eqn:Hrec.
      injection Heq as <- <- <-.
      apply Z.eqb_eq in Hs. apply Z.eqb_neq in Hn.
      assert (Hc : AtomicInteger.c_int (n - Z.min n (quantity s))
                   = n - Z.min n (quantity s)).
      { apply c_int_id. unfold AtomicInteger.in_range, AtomicInteger.INT_MIN,
          AtomicInteger.INT_MAX. lia. }
      rewrite Hc in Hrec.
      destruct (IH _ _ _ _ Hrec Hall) as [Hl Hn']; [lia|].
      split; [assumption|lia].
    + injection Heq as <- <- <-. apply Z.eqb_neq in Hs.
      assert (Hm : Z.min n (quantity s) = n) by lia.
      rewrite Hm, Z.sub_diag, c_int_0.
      split; [|lia]. constructor; [|assumption].
      cbn [set_quantity quantity]. rewrite c_int_id.
      * lia.
      * unfold AtomicInteger.in_range, AtomicInteger.INT_MIN,
          AtomicInteger.INT_MAX. lia.
    + injection Heq as <- <- <-. split; [now constructor|lia].
Qed.

Lemma total_quantity_cons o l :
  total_quantity (o :: l) = quantity o + total_quantity l.
Proof. reflexivity. Qed.

Lemma filled_total_cons f fs :
  filled_total (f :: fs) = fill_quantity f + filled_total fs.
Proof. reflexivity. Qed.

Lemma filled_total_app fs1 fs2 :
  filled_total (fs1 ++ fs2) = filled_total fs1 + filled_total fs2.
Proof.
  induction fs1 as [|f fs1 IH]; [reflexivity|].
  cbn [app]. rewrite !filled_total_cons, IH. lia.
Qed.

(** Sums over lists with a known head. *)
Ltac sums :=
  rewrite ?total_quantity_cons, ?filled_total_cons;
  change (total_quantity []) with 0; change (filled_total []) with 0;
  cbn [fill_quantity set_quantity quantity].

(** Each trade takes its quantity from the incoming order and from the
    resting order. *)
Lemma sweep_conservation p t n sells l n' fs :
  sweep p t n sells = (l, n', fs) ->
  Forall resting sells -> 0 <= n <= AtomicInteger.INT_MAX ->
  total_quantity l + n' + 2 * filled_total fs = total_quantity sells + n.
Proof.
  unfold resting, AtomicInteger.INT_MAX.
  revert n l n' fs. induction sells as [|s next IH]; intros n l n' fs.
  - cbn [sweep]. intros [= <- <- <-]. sums. lia.
  - sweep_cases s n p; intros Heq Hall Hn0;
      apply Forall_cons in Hall as [Hs0 Hall].
    + injection Heq as <- <- <-. apply Z.eqb_eq in Hn, Hs.
      rewrite Hn, c_int_0. sums. lia.
    + destruct (sweep p t _ next) as [[l0 n0] fs0] eqn:Hrec.
      injection Heq as <- <- <-.
      apply Z.eqb_eq in Hs. apply Z.eqb_neq in Hn.
      assert (Hc : AtomicInteger.c_int (n - Z.min n (quantity s))
                   = n - Z.min n (quantity s)).
      { apply c_int_id. unfold AtomicInteger.in_range, AtomicInteger.INT_MIN,
          AtomicInteger.INT_MAX. lia. }
      rewrite Hc in Hrec.
      specialize (IH _ _ _ _ Hrec Hall). sums. lia.
    + injection Heq as <- <- <-. apply Z.eqb_neq in Hs.
      assert (Hm : Z.min n (quantity s) = n) by lia.
      rewrite Hm, Z.sub_diag, c_int_0. sums.
      rewrite c_int_id.
      * lia.
      * unfold AtomicInteger.in_range, AtomicInteger.INT_MIN,
          AtomicInteger.INT_MAX. lia.
    + injection Heq as <- <- <-. sums. lia.
Qed.

(** When the loop ends with quantity left on the incoming order, the best
    remaining order does not cross. *)
Lemma sweep_stops p t n sells l n' fs :
  sweep p t n sells = (l, n', fs) ->
  n' <> 0 ->
  match l with
  | [] => True
  | h :: _ => p < price h
  end.
Proof.
  revert n l n' fs. induction sells as [|s next IH]; intros n l n' fs.
  - cbn. now intros [= <- <- <-].
  - sweep_cases s n p; intros Heq Hn'.
    + injection Heq as <- <- <-. apply Z.eqb_eq in Hn.
      rewrite Hn, c_int_0 in Hn'. lia.
    + destruct (sweep p t _ next) as [[l0 n0] fs0] eqn:Hrec.
      injection Heq as <- <- <-. eapply IH; eauto.
    + injection Heq as <- <- <-. apply Z.eqb_neq in Hs.
      assert (Hm : Z.min n (quantity s) = n) by lia.
      rewrite Hm, Z.sub_diag, c_int_0 in Hn'. lia.
    + injection Heq as <- <- <-. apply Z.leb_gt in Hcross. assumption.
Qed.

(** ** Properties of the insertion *)

Lemma ahead_of_true nxt new_order :
  ahead_of nxt new_order = true -> price_lt (order_type new_order) nxt new_order.
Proof.
  unfold ahead_of, price_lt. destruct (order_type new_order); cbn; lia.
Qed.

Lemma ahead_of_false nxt new_order :
  ahead_of nxt new_order = false -> price_le (order_type new_order) new_order nxt.
Proof.
  unfold ahead_of, price_le. destruct (order_type new_order); cbn; lia.
Qed.

Lemma takes_head_true h new_order :
  takes_head h new_order = true -> price_le (order_type new_order) new_order h.
Proof.
  unfold takes_head, price_le. destruct (order_type new_order); cbn; lia.
Qed.

Lemma takes_head_false h new_order :
  takes_head h new_order = false -> price_lt (order_type new_order) h new_order.
Proof.
  unfold takes_head, price_lt. destruct (order_type new_order); cbn; lia.
Qed.

Lemma price_lt_le side a b : price_lt side a b -> price_le side a b.
Proof. destruct side; cbn; lia. Qed.

Lemma price_lt_neq side a b : price_lt side a b -> price a <> price b.
Proof. destruct side; cbn; lia. Qed.

Lemma price_le_trans side a b c :
  price_le side a b -> price_le side b c -> price_le side a c.
Proof. destruct side; cbn; lia. Qed.

(** The traversal stops in front of the first order that is not strictly
    better than the new one. *)
Lemma link_after_split new_order rest :
  exists l1 l2,
    rest = l1 ++ l2 /\
    link_after new_order rest = l1 ++ new_order :: l2 /\
    Forall (fun o => price_lt (order_type new_order) o new_order) l1 /\
    match l2 with
    | [] => True
    | h :: _ => price_le (order_type new_order) new_order h
    end.
Proof.
  induction rest as [|nxt rest IH].
  - exists [], []. cbn. repeat split. constructor.
  - cbn [link_after]. destruct (ahead_of nxt new_order) eqn:Ha.
    + destruct IH as (l1 & l2 & -> & -> & Hl1 & Hl2).
      exists (nxt :: l1), l2. repeat split; [|assumption].
      constructor; [now apply ahead_of_true|assumption].
    + exists [], (nxt :: rest). repeat split; [constructor|].
      now apply ahead_of_false.
Qed.

Lemma insert_chain_split head new_order :
  exists l1 l2,
    head = l1 ++ l2 /\
    insert_chain head new_order = l1 ++ new_order :: l2 /\
    Forall (fun o => price_lt (order_type new_order) o new_order) l1 /\
    match l2 with
    | [] => True
    | h :: _ => price_le (order_type new_order) new_order h
    end.
Proof.
  destruct head as [|h rest]; cbn [insert_chain].
  - exists [], []. repeat split. constructor.
  - destruct (takes_head h new_order) eqn:Ht.
    + exists [], (h :: rest). repeat split; [constructor|].
      now apply takes_head_true.
    + destruct (link_after_split new_order rest) as (l1 & l2 & -> & -> & Hl1 & Hl2).
      exists (h :: l1), l2. repeat split; [|assumption].
      constructor; [now apply takes_head_false|assumption].
Qed.

Lemma link_after_sorted new_order c rest :
  Sorted (price_le (order_type new_order)) (c :: rest) ->
  price_le (order_type new_order) c new_order ->
  Sorted (price_le (order_type new_order)) (c :: link_after new_order rest).
Proof.
  revert c. induction rest as [|nxt rest IH]; intros c Hs Hc.
  - cbn. repeat constructor. assumption.
  - apply Sorted_inv in Hs as [Hs Hhd]. apply HdRel_inv in Hhd.
    cbn [link_after]. destruct (ahead_of nxt new_order) eqn:Ha.
    + constructor; [|now constructor].
      apply IH; [assumption|]. now apply price_lt_le, ahead_of_true.
    + constructor; [|now constructor].
      constructor; [assumption|]. constructor. now apply ahead_of_false.
Qed.

Lemma insert_chain_best_first head new_order :
  best_first (order_type new_order) head ->
  best_first (order_type new_order) (insert_chain head new_order).
Proof.
  unfold best_first. destruct head as [|h rest]; cbn [insert_chain]; intros Hs.
  - repeat constructor.
  - destruct (takes_head h new_order) eqn:Ht.
    + constructor; [assumption|]. constructor. now apply takes_head_true.
    + apply link_after_sorted; [assumption|].
      now apply price_lt_le, takes_head_false.
Qed.

Lemma total_quantity_app l1 l2 :
  total_quantity (l1 ++ l2) = total_quantity l1 + total_quantity l2.
Proof.
  induction l1 as [|o l1 IH]; [reflexivity|].
  cbn [app]. rewrite !total_quantity_cons, IH. lia.
Qed.

Lemma insert_chain_total head new_order :
  total_quantity (insert_chain head new_order)
  = quantity new_order + total_quantity head.
Proof.
  destruct (insert_chain_split head new_order) as (l1 & l2 & -> & -> & _).
  rewrite !total_quantity_app, total_quantity_cons. lia.
Qed.

Lemma insert_chain_resting head new_order :
  Forall resting head -> resting new_order ->
  Forall resting (insert_chain head new_order).
Proof.
  destruct (insert_chain_split head new_order) as (l1 & l2 & -> & -> & _).
  rewrite !Forall_app, Forall_cons. tauto.
Qed.

Lemma insert_chain_length head new_order :
  length (insert_chain head new_order) = S (length head).
Proof.
  destruct (insert_chain_split head new_order) as (l1 & l2 & -> & -> & _).
  rewrite !length_app. cbn. lia.
Qed.

(** ** Properties of the matching phase, for both sides *)

Lemma matching_sell_inv p t n opp l n' fs :
  matching Sell p t n opp = Some (l, n', fs) ->
  l = opp /\ n' = n /\ fs = [] /\
  match opp with
  | [] => True
  | bo :: _ => price bo < p
  end.
Proof.
  cbn. destruct opp as [|bo next].
  - now intros [= <- <- <-].
  - destruct (price bo >=? p) eqn:Hc; [discriminate|].
    intros [= <- <- <-]. repeat split. lia.
Qed.

Lemma matching_fills side p t n opp l n' fs :
  matching side p t n opp = Some (l, n', fs) ->
  Forall (fun f => fill_price f = p /\ fill_ticker f = t) fs.
Proof.
  destruct side.
  - cbn. intros [= H]. eapply sweep_fills; eauto.
  - intros H. apply matching_sell_inv in H as (_ & _ & -> & _). constructor.
Qed.

Lemma matching_best_first side p t n opp l n' fs :
  matching side p t n opp = Some (l, n', fs) ->
  best_first (opposite side) opp -> best_first (opposite side) l.
Proof.
  destruct side.
  - cbn [matching]. intros [= H]. eapply sweep_best_first; eauto.
  - intros H. now apply matching_sell_inv in H as (-> & _).
Qed.

Lemma matching_resting side p t n opp l n' fs :
  matching side p t n opp = Some (l, n', fs) ->
  Forall resting opp -> 0 <= n <= AtomicInteger.INT_MAX ->
  Forall resting l /\ 0 <= n' <= n.
Proof.
  destruct side.
  - cbn [matching]. intros [= H]. eapply sweep_resting; eauto.
  - intros H. apply matching_sell_inv in H as (-> & -> & _). intros; split; [assumption|lia].
Qed.

Lemma matching_conservation side p t n opp l n' fs :
  matching side p t n opp = Some (l, n', fs) ->
  Forall resting opp -> 0 <= n <= AtomicInteger.INT_MAX ->
  total_quantity l + n' + 2 * filled_total fs = total_quantity opp + n.
Proof.
  destruct side.
  - cbn [matching]. intros [= H]. eapply sweep_conservation; eauto.
  - intros H. apply matching_sell_inv in H as (-> & -> & -> & _).
    intros. sums. lia.
Qed.

(** ** The book after a call *)

Lemma side_cases (side ot : OrderType) : side = ot \/ side = opposite ot.
Proof. destruct side, ot; auto. Qed.

Lemma book_after_sides self ot t p l n' b' :
  book_after self ot t p l n' b' ->
  side_list b' (opposite ot) = <[t := l]> (side_list self (opposite ot)) /\
  ((n' <= 0 /\ side_list b' ot = side_list self ot) \/
   (0 < n' /\ exists head,
      side_list self ot !! t = Some head /\
      side_list b' ot =
        <[t := insert_chain head (mkOrder ot t n' p)]> (side_list self ot))).
Proof.
  unfold book_after. intros [[Hn ->]|(Hn & head & Hhead & ->)].
  - split; [now destruct ot|]. left. split; [assumption|now destruct ot].
  - split; [now destruct ot|]. right. split; [assumption|].
    exists head. split; [assumption|now destruct ot].
Qed.

(** A property of the lists of a book that the matching phase and the
    insertion keep is kept by [add_order]. *)
Lemma add_order_preserves (P : OrderType -> list Order -> Prop)
    self ot t q p b' fills :
  (forall side (k : nat) l, side_list self side !! k = Some l -> P side l) ->
  add_order self ot t q p = Ok (b', fills) ->
  (forall opp l n',
     matching ot p t (AtomicInteger.c_int q) opp = Some (l, n', fills) ->
     P (opposite ot) opp -> P (opposite ot) l) ->
  (forall opp l n' head,
     side_list self (opposite ot) !! t = Some opp ->
     matching ot p t (AtomicInteger.c_int q) opp = Some (l, n', fills) ->
     0 < n' -> P ot head -> P ot (insert_chain head (mkOrder ot t n' p))) ->
  forall side (k : nat) l, side_list b' side !! k = Some l -> P side l.
Proof.
  intros Hself Hadd Hmatch Hins side k l0 Hl0.
  assert (HselfZ : forall side (t0 : Z) l,
             side_list self side !! t0 = Some l -> P side l).
  { intros side0 t0 l1 H. apply pyl_lookup_Some in H as (k0 & _ & H). eauto. }
  apply add_order_Ok in Hadd as (opp & l & n' & Hopp & Hm & Hafter).
  apply book_after_sides in Hafter as [Hopp' Hown].
  destruct (side_cases side ot) as [->| ->].
  - destruct Hown as [[_ Heq]|(Hn & head & Hhead & Heq)]; rewrite Heq in Hl0.
    + eauto.
    + apply pyl_insert_lookup_nat in Hl0 as [[_ <-]|Hl0]; eauto.
  - rewrite Hopp' in Hl0.
    apply pyl_insert_lookup_nat in Hl0 as [[_ <-]|Hl0]; eauto.
Qed.

(** The invariants, read at an index. *)
Lemma book_best_first_at b side (t : Z) l :
  book_best_first b -> side_list b side !! t = Some l -> best_first side l.
Proof. intros Hb H. apply pyl_lookup_Some in H as (k & _ & H). eauto. Qed.

Lemma book_resting_at b side (t : Z) l :
  book_resting b -> side_list b side !! t = Some l -> Forall resting l.
Proof. intros Hb H. apply pyl_lookup_Some in H as (k & _ & H). eauto. Qed.

Lemma book_inv_at b side (t : Z) l :
  book_inv b -> side_list b side !! t = Some l -> side_inv side l.
Proof. intros Hb H. apply pyl_lookup_Some in H as (k & _ & H). eauto. Qed.

Lemma add_order_best_first self ot t q p b' fills :
  book_best_first self ->
  add_order self ot t q p = Ok (b', fills) ->
  book_best_first b'.
Proof.
  intros Hself Hadd side t0 l0.
  revert side t0 l0.
  refine (add_order_preserves best_first self ot t q p b' fills Hself Hadd _ _).
  - intros opp l n' Hm. eapply matching_best_first; eauto.
  - intros opp l n' head _ _ _. apply (insert_chain_best_first head (mkOrder ot t n' p)).
Qed.

Lemma valid_quantity_range q :
  valid_quantity q -> 0 <= AtomicInteger.c_int q <= AtomicInteger.INT_MAX.
Proof.
  intros H. rewrite (c_int_valid _ H). unfold valid_quantity in H. lia.
Qed.

Lemma add_order_resting self ot t q p b' fills :
  book_resting self ->
  valid_quantity q ->
  add_order self ot t q p = Ok (b', fills) ->
  book_resting b'.
Proof.
  intros Hself Hq Hadd side t0 l0.
  revert side t0 l0.
  refine (add_order_preserves (fun _ => Forall resting) self ot t q p b' fills
            Hself Hadd _ _).
  - intros opp l n' Hm Hopp.
    eapply matching_resting; eauto using valid_quantity_range.
  - intros opp l n' head Hopp Hm Hn Hhead.
    apply insert_chain_resting; [assumption|].
    destruct (matching_resting _ _ _ _ _ _ _ _ Hm
                (book_resting_at _ _ _ _ Hself Hopp)
                (valid_quantity_range _ Hq)) as [_ Hn'].
    pose proof (valid_quantity_range _ Hq).
    unfold resting. cbn [quantity]. lia.
Qed.

Lemma OrderBook_init_lookup side (k : nat) l :
  side_list OrderBook_init side !! k = Some l -> l = [].
Proof.
  destruct side; cbn [side_list OrderBook_init buy_orders sell_orders];
    intros H; apply lookup_replicate in H as [-> _]; reflexivity.
Qed.

Lemma OrderBook_init_lookup_at side (t : Z) l :
  side_list OrderBook_init side !! t = Some l -> l = [].
Proof.
  intros H. apply pyl_lookup_Some in H as (k & _ & H).
  now apply OrderBook_init_lookup in H.
Qed.

Lemma OrderBook_init_inv : book_inv OrderBook_init.
Proof.
  intros side t l H. apply OrderBook_init_lookup in H as ->.
  split; constructor.
Qed.

Lemma OrderBook_init_resting : book_resting OrderBook_init.
Proof. intros side t l H. apply OrderBook_init_lookup in H as ->. constructor. Qed.

(** ** C1: the price recorded in a trade *)

(** C1, counterexample.  A [Sell] of 5 rests at price 9; a [Buy] of 5 at
    price 10 is matched against it.  The trade recorded carries price 10,
    the price of the incoming order, not 9, the price of the resting
    order. *)
Lemma fill_price_not_resting :
  let resting_order := mkOrder Sell 0 5 9 in
  add_order (book_with Sell 0 [resting_order]) Buy 0 5 10
    = Ok (OrderBook_init, [mkFill 10 5 0]) /\
  fill_price (mkFill 10 5 0) <> price resting_order.
Proof. split; [vm_compute; reflexivity|cbn; lia]. Qed.

(** C1, amended.  Every trade returned by [add_order] carries the price
    of the incoming order (the price of the resting order is used for the
    crossing test only). *)
Theorem fill_price_is_incoming self ot t q p b' fills :
  add_order self ot t q p = Ok (b', fills) ->
  Forall (fun f => fill_price f = p) fills.
Proof.
  intros H. apply add_order_Ok in H as (opp & l & n' & _ & Hm & _).
  apply matching_fills in Hm.
  eapply Forall_impl; [exact Hm|]. now intros f [Hp _].
Qed.

(** The theorem at the call of the counterexample. *)
Lemma fill_price_is_incoming_witness :
  Forall (fun f => fill_price f = 10) [mkFill 10 5 0].
Proof.
  apply (fill_price_is_incoming (book_with Sell 0 [mkOrder Sell 0 5 9])
           Buy 0 5 10 OrderBook_init).
  vm_compute. reflexivity.
Defined.

(** ** C2: the matched quantity *)

(** In the [Buy] branch the first trade has the minimum of the two
    remaining quantities. *)
Lemma buy_matched_quantity self t n p s next :
  sell_orders self !! t = Some (s :: next) ->
  price s <= p ->
  exists b' new_order' more,
    match_orders self (mkOrder Buy t n p)
      = Ok (b', new_order', mkFill p (Z.min n (quantity s)) t :: more).
Proof.
  intros Hslot Hp.
  rewrite (match_orders_spec self Buy t n p (s :: next) Hslot).
  cbn [matching sweep]. apply Z.leb_le in Hp. rewrite Hp.
  destruct (quantity s - Z.min n (quantity s) =? 0);
    [destruct (n - Z.min n (quantity s) =? 0);
       [|destruct (sweep p t _ next) as [[l n'] fs]]|];
    eauto.
Qed.

(** In the [Sell] branch a crossing resting order makes [min] raise. *)
Lemma sell_crossing_raises self t q p bo next :
  buy_orders self !! t = Some (bo :: next) ->
  p <= price bo ->
  add_order self Sell t q p = Raise TypeError.
Proof.
  intros Hslot Hp. unfold add_order, Order_init.
  rewrite (match_orders_spec self Sell t _ p (bo :: next) Hslot).
  cbn [matching].
  assert (Hc : (price bo >=? p) = true) by lia.
  now rewrite Hc.
Qed.

(** C2.  A [Buy] of 5 against a resting [Sell] of 10 is matched for
    [min 5 10]; a [Sell] of 5 against a resting [Buy] of 10 at the same
    price raises [TypeError] in [min], which is given the two
    [AtomicInteger] objects. *)
Theorem sell_branch_min_raises :
  match_orders (book_with Sell 0 [mkOrder Sell 0 10 10]) (Order_init Buy 0 5 10)
    = Ok (book_with Sell 0 [mkOrder Sell 0 5 10], mkOrder Buy 0 0 10,
          [mkFill 10 (Z.min 5 10) 0]) /\
  match_orders (book_with Buy 0 [mkOrder Buy 0 10 10]) (Order_init Sell 0 5 10)
    = Raise TypeError.
Proof. split; vm_compute; reflexivity. Qed.

(** ** C3: failure of [add_order] *)

(** A [Buy] on a slot that both arrays have returns. *)
Lemma buy_returns self t q p :
  in_bounds t (buy_orders self) ->
  in_bounds t (sell_orders self) ->
  exists b' fills, add_order self Buy t q p = Ok (b', fills).
Proof.
  intros Hb Hs.
  apply pyl_in_bounds_lookup in Hb as [head Hhead].
  apply pyl_in_bounds_lookup in Hs as [opp Hopp].
  destruct (matching Buy p t (AtomicInteger.c_int q) opp) as [[[l n'] fs]|] eqn:Hm;
    [|discriminate].
  destruct (add_order_returns self Buy t q p opp l n' fs head Hopp Hhead Hm)
    as (b' & Hadd & _).
  eauto.
Qed.

(** C3.  On the initial book, a [Buy] of 100 at price 10 for ticker 0
    followed by a [Sell] of 100 at price 10 for ticker 0: both
    submissions satisfy the preconditions, the first call returns and the
    second raises [TypeError]. *)
Theorem add_order_can_fail :
  valid_quantity 100 /\ 0 <= 10 /\ (0 < 1024)%nat /\
  add_order OrderBook_init Buy 0 100 10
    = Ok (book_with Buy 0 [mkOrder Buy 0 100 10], []) /\
  add_order (book_with Buy 0 [mkOrder Buy 0 100 10]) Sell 0 100 10
    = Raise TypeError.
Proof.
  unfold valid_quantity, AtomicInteger.INT_MAX.
  repeat split; try lia; vm_compute; reflexivity.
Qed.

(** ** C4: position of a new order among orders of its price *)

(** C4, counterexample.  A [Sell] of 5 then a [Sell] of 7 are submitted at
    price 10: the second is linked in front of the first.  A [Buy] of 7 at
    price 10 is then matched against the second, and the first, submitted
    earliest, still rests. *)
Lemma insert_not_fifo :
  let first := mkOrder Sell 0 5 10 in
  let second := mkOrder Sell 0 7 10 in
  _insert_order (sell_orders (book_with Sell 0 [first])) 0 second
    = Ok (sell_orders (book_with Sell 0 [second; first])) /\
  run OrderBook_init
    [mkSubmission Sell 0 5 10; mkSubmission Sell 0 7 10; mkSubmission Buy 0 7 10]
    = Ok (book_with Sell 0 [first], [mkFill 10 7 0]).
Proof. split; vm_compute; reflexivity. Qed.

(** C4, amended.  [_insert_order] places the new order after the resting
    orders of strictly better price only, in front of the first order
    whose price is equal or worse: every resting order of the same price
    as the new order comes after it, so among orders of equal price the
    one submitted last is matched first. *)
Theorem insert_before_equal_price order_list t new_order order_list' :
  _insert_order order_list t new_order = Ok order_list' ->
  exists l1 l2,
    order_list !! t = Some (l1 ++ l2) /\
    order_list' = <[t := l1 ++ new_order :: l2]> order_list /\
    Forall (fun o => price_lt (order_type new_order) o new_order) l1 /\
    Forall (fun o => price o <> price new_order) l1 /\
    match l2 with
    | [] => True
    | h :: _ => price_le (order_type new_order) new_order h
    end.
Proof.
  unfold _insert_order, getitem. intros H.
  destruct (order_list !! t) as [head|] eqn:Hhead; [|discriminate].
  cbn in H. injection H as <-.
  destruct (insert_chain_split head new_order) as (l1 & l2 & -> & -> & Hl1 & Hl2).
  exists l1, l2. split; [reflexivity|]. split; [reflexivity|].
  split; [assumption|]. split; [|assumption].
  eapply Forall_impl; [exact Hl1|]. intros o. apply price_lt_neq.
Qed.

(** The theorem at the insertion of the counterexample: a [Sell] of 7 at
    price 10 into a list holding a [Sell] of 5 at price 10. *)
Lemma insert_before_equal_price_witness :
  exists l1 l2,
    sell_orders (book_with Sell 0 [mkOrder Sell 0 5 10]) !! 0 = Some (l1 ++ l2) /\
    sell_orders (book_with Sell 0 [mkOrder Sell 0 7 10; mkOrder Sell 0 5 10])
      = <[0 := l1 ++ mkOrder Sell 0 7 10 :: l2]>
          (sell_orders (book_with Sell 0 [mkOrder Sell 0 5 10])) /\
    Forall (fun o => price_lt Sell o (mkOrder Sell 0 7 10)) l1 /\
    Forall (fun o => price o <> 10) l1 /\
    match l2 with
    | [] => True
    | h :: _ => price_le Sell (mkOrder Sell 0 7 10) h
    end.
Proof.
  apply (insert_before_equal_price
           (sell_orders (book_with Sell 0 [mkOrder Sell 0 5 10])) 0
           (mkOrder Sell 0 7 10)).
  vm_compute. reflexivity.
Defined.

(** ** C5: conservation of quantity *)

Lemma resting_total_sides b ot t :
  resting_total b t =
    total_quantity (slot (side_list b ot) t)
    + total_quantity (slot (side_list b (opposite ot)) t).
Proof. unfold resting_total. destruct ot; cbn [side_list opposite]; lia. Qed.

(** One call: what rests afterwards, plus twice what was traded, is what
    rested before plus the submitted quantity. *)
Lemma add_order_conservation self ot t q p b' fills :
  book_resting self ->
  valid_quantity q ->
  add_order self ot t q p = Ok (b', fills) ->
  resting_total b' t + 2 * filled_total fills = resting_total self t + q.
Proof.
  intros Hself Hq Hadd.
  apply add_order_Ok in Hadd as (opp & l & n' & Hopp & Hm & Hafter).
  apply book_after_sides in Hafter as [Hopp' Hown].
  pose proof (valid_quantity_range _ Hq) as Hrange.
  pose proof (matching_conservation _ _ _ _ _ _ _ _ Hm
                (book_resting_at _ _ _ _ Hself Hopp) Hrange)
    as Hcons.
  destruct (matching_resting _ _ _ _ _ _ _ _ Hm
              (book_resting_at _ _ _ _ Hself Hopp) Hrange)
    as [_ Hn'].
  rewrite (c_int_valid _ Hq) in Hcons.
  rewrite !(resting_total_sides _ ot), Hopp'.
  rewrite slot_insert by (eapply pyl_lookup_in_bounds; eauto).
  rewrite (slot_Some _ _ _ Hopp).
  destruct Hown as [[Hn ->]|(Hn & head & Hhead & ->)].
  - lia.
  - rewrite slot_insert by (eapply pyl_lookup_in_bounds; eauto).
    rewrite (slot_Some _ _ _ Hhead), insert_chain_total. cbn [quantity]. lia.
Qed.

Lemma submitted_total_cons s subs :
  submitted_total (s :: subs) = sub_quantity s + submitted_total subs.
Proof. reflexivity. Qed.

Lemma run_conservation t subs :
  forall self b' fills,
    book_resting self ->
    Forall (fun s => sub_ticker s = t /\ valid_quantity (sub_quantity s)) subs ->
    run self subs = Ok (b', fills) ->
    resting_total b' t + 2 * filled_total fills
    = resting_total self t + submitted_total subs.
Proof.
  induction subs as [|s subs IH]; intros self b' fills Hself Hall Hrun.
  - cbn in Hrun. injection Hrun as <- <-.
    change (submitted_total []) with 0. change (filled_total []) with 0. lia.
  - apply Forall_cons in Hall as [[Ht Hq] Hall]. cbn [run] in Hrun.
    destruct (add_order self (sub_type s) (sub_ticker s) (sub_quantity s)
                (sub_price s)) as [[self1 trades]| |] eqn:Hadd;
      cbn [mbind result_bind] in Hrun; try discriminate.
    destruct (run self1 subs) as [[self2 more]| |] eqn:Hrest;
      cbn [mbind result_bind] in Hrun; try discriminate.
    injection Hrun as <- <-.
    rewrite Ht in Hadd.
    pose proof (add_order_conservation _ _ _ _ _ _ _ Hself Hq Hadd) as Hstep.
    pose proof (add_order_resting _ _ _ _ _ _ _ Hself Hq Hadd) as Hself1.
    specialize (IH _ _ _ Hself1 Hall Hrest).
    rewrite filled_total_app, submitted_total_cons. lia.
Qed.

Lemma OrderBook_init_total t : resting_total OrderBook_init t = 0.
Proof.
  unfold resting_total, slot.
  destruct (buy_orders OrderBook_init !! t) as [l|] eqn:Hb;
    [apply (OrderBook_init_lookup_at Buy) in Hb as ->|];
    (destruct (sell_orders OrderBook_init !! t) as [l'|] eqn:Hs;
       [apply (OrderBook_init_lookup_at Sell) in Hs as ->|]); reflexivity.
Qed.

(** C5, counterexample.  A [Sell] of 100 at price 10, then a [Buy] of 100
    at price 10: one trade of 100 and nothing left resting, while 200 were
    submitted.  What rests plus what was traded is 100. *)
Lemma conservation_counts_each_trade_once :
  let subs := [mkSubmission Sell 0 100 10; mkSubmission Buy 0 100 10] in
  run OrderBook_init subs = Ok (OrderBook_init, [mkFill 10 100 0]) /\
  resting_total OrderBook_init 0 + filled_total [mkFill 10 100 0]
    <> submitted_total subs.
Proof. split; [vm_compute; reflexivity|vm_compute; discriminate]. Qed.

(** C5, amended.  For every sequence of submissions for one ticker, with
    quantities from 1 to 2^31 - 1, executed one after the other from the
    initial book with every call returning: the quantities resting on the
    two sides of that ticker, plus twice the quantities of the trades
    recorded so far, equal the submitted quantities. *)
Theorem quantity_conservation t subs b' fills :
  Forall (fun s => sub_ticker s = t /\ valid_quantity (sub_quantity s)) subs ->
  run OrderBook_init subs = Ok (b', fills) ->
  resting_total b' t + 2 * filled_total fills = submitted_total subs.
Proof.
  intros Hall Hrun.
  rewrite (run_conservation t subs _ _ _ OrderBook_init_resting Hall Hrun).
  rewrite OrderBook_init_total. lia.
Qed.

(** The theorem at a [Sell] of 50 at 1000, a [Sell] of 30 at 950 and a [Buy]
    of 100 at 1000: 20 rest, 80 were traded, 180 were submitted. *)
Lemma quantity_conservation_witness :
  resting_total (book_with Buy 0 [mkOrder Buy 0 20 1000]) 0
    + 2 * filled_total [mkFill 1000 30 0; mkFill 1000 50 0]
  = submitted_total
      [mkSubmission Sell 0 50 1000; mkSubmission Sell 0 30 950;
       mkSubmission Buy 0 100 1000].
Proof.
  apply (quantity_conservation 0
           [mkSubmission Sell 0 50 1000; mkSubmission Sell 0 30 950;
            mkSubmission Buy 0 100 1000]).
  - unfold valid_quantity, AtomicInteger.INT_MAX.
    repeat constructor; cbn; lia.
  - vm_compute. reflexivity.
Defined.

(** ** C6: crossing *)

Lemma best_first_above p h rest :
  best_first Sell (h :: rest) -> p < price h ->
  Forall (fun o => p < price o) (h :: rest).
Proof.
  unfold best_first. intros Hs Hp.
  apply Sorted_StronglySorted in Hs.
  - apply StronglySorted_inv in Hs as [_ Hall]. constructor; [assumption|].
    eapply Forall_impl; [exact Hall|]. cbn. intros o Ho. lia.
  - intros a b c. apply price_le_trans.
Qed.

(** A [Buy] that comes to rest leaves no [Sell] of its ticker at a price
    it could have paid. *)
Lemma buy_rests_uncrossed self t q p b' fills :
  best_first Sell (slot (sell_orders self) t) ->
  add_order self Buy t q p = Ok (b', fills) ->
  slot (buy_orders b') t <> slot (buy_orders self) t ->
  Forall (fun o => p < price o) (slot (sell_orders b') t).
Proof.
  intros Hsorted Hadd Hrests.
  apply add_order_Ok in Hadd as (opp & l & n' & Hopp & Hm & Hafter).
  apply book_after_sides in Hafter as [Hopp' Hown].
  cbn [side_list opposite] in Hopp, Hopp', Hown.
  destruct Hown as [[_ Heq]|(Hn & _)]; [now rewrite Heq in Hrests|].
  rewrite Hopp', slot_insert by (eapply pyl_lookup_in_bounds; eauto).
  rewrite (slot_Some _ _ _ Hopp) in Hsorted.
  cbn [matching] in Hm. injection Hm as Hm.
  pose proof (sweep_best_first Sell _ _ _ _ _ _ _ Hm Hsorted) as Hl.
  assert (Hn' : n' <> 0) by lia.
  pose proof (sweep_stops _ _ _ _ _ _ _ Hm Hn') as Hstop.
  destruct l as [|h rest]; [constructor|].
  now apply best_first_above.
Qed.

(** When the best resting order of the opposite side does not cross, or
    there is none, the call returns no trade and the incoming order rests
    with its whole quantity. *)
Lemma no_cross_rests self ot t q p opp head :
  side_list self (opposite ot) !! t = Some opp ->
  side_list self ot !! t = Some head ->
  valid_quantity q ->
  match opp with
  | [] => True
  | h :: _ => crosses ot p h = false
  end ->
  add_order self ot t q p
    = Ok (set_side self ot
            (<[t := insert_chain head (mkOrder ot t q p)]> (side_list self ot)),
          []).
Proof.
  intros Hopp Hhead Hq Hno.
  assert (Hm : matching ot p t (AtomicInteger.c_int q) opp = Some (opp, q, [])).
  { rewrite (c_int_valid _ Hq).
    destruct ot, opp as [|h rest]; cbn [matching sweep crosses] in Hno |- *;
      try reflexivity; now rewrite Hno. }
  destruct (add_order_returns self ot t q p opp opp q [] head Hopp Hhead Hm)
    as (b' & -> & Hafter).
  unfold book_after in Hafter. unfold valid_quantity in Hq.
  destruct Hafter as [[Hn _]|(_ & head' & Hhead' & ->)]; [lia|].
  rewrite (pyl_insert_id _ _ _ Hopp), set_side_same.
  rewrite Hhead in Hhead'. now injection Hhead' as <-.
Qed.

(** C6.  A [Buy] of 10 rests at price 10.  A [Sell] of 10 at price 9, and a
    [Sell] of 10 at price 10, both cross it; each call raises [TypeError]
    and nothing is matched.  The other way round, a [Buy] of 10 at price 10
    against a resting [Sell] of 10 at price 10 is matched in full. *)
Theorem sell_crossing_not_matched :
  add_order (book_with Buy 0 [mkOrder Buy 0 10 10]) Sell 0 10 9
    = Raise TypeError /\
  add_order (book_with Buy 0 [mkOrder Buy 0 10 10]) Sell 0 10 10
    = Raise TypeError /\
  add_order (book_with Sell 0 [mkOrder Sell 0 10 10]) Buy 0 10 10
    = Ok (OrderBook_init, [mkFill 10 10 0]).
Proof. repeat split; vm_compute; reflexivity. Qed.

(** ** C7: the remainder of the incoming order *)

Lemma insert_chain_neq head new_order : insert_chain head new_order <> head.
Proof.
  intros H. apply (f_equal length) in H.
  rewrite insert_chain_length in H. lia.
Qed.

(** C7, counterexample.  On the initial book, where the opposite side is
    empty, a [Buy] of 2^32 at price 10 returns no trade and nothing is
    inserted: the quantity held by the [c_int] of the order is 0. *)
Lemma full_quantity_not_inserted :
  0 < 2 ^ 32 /\
  slot (sell_orders OrderBook_init) 0 = [] /\
  add_order OrderBook_init Buy 0 (2 ^ 32) 10 = Ok (OrderBook_init, []) /\
  slot (buy_orders OrderBook_init) 0 = [].
Proof. repeat split; vm_compute; reflexivity. Qed.

(** C7, amended.  For every call of [add_order] that returns, the incoming
    order is linked into the list of its own side and ticker if and only
    if its remaining quantity is strictly positive after the matching
    phase, and a fully matched incoming order leaves the book as the
    matching phase left it.  With an empty opposite list and a submitted
    quantity from 1 to 2^31 - 1, the call returns no trade and the order
    is inserted with the whole submitted quantity. *)
Theorem remainder_handling self ot t q p :
  (forall b' fills,
     add_order self ot t q p = Ok (b', fills) ->
     exists self1 new1,
       match_orders self (Order_init ot t q p) = Ok (self1, new1, fills) /\
       (0 < quantity new1 <->
        slot (side_list b' ot) t
          = insert_chain (slot (side_list self1 ot) t) new1) /\
       (0 < quantity new1 ->
        b' = set_side self1 ot
               (<[t := insert_chain (slot (side_list self1 ot) t) new1]>
                  (side_list self1 ot))) /\
       (quantity new1 <= 0 -> b' = self1)) /\
  (forall head,
     side_list self (opposite ot) !! t = Some [] ->
     side_list self ot !! t = Some head ->
     valid_quantity q ->
     add_order self ot t q p
       = Ok (set_side self ot
               (<[t := insert_chain head (mkOrder ot t q p)]> (side_list self ot)),
             [])).
Proof.
  split.
  - intros b' fills H. unfold add_order in H.
    destruct (match_orders self (Order_init ot t q p))
      as [[[self1 new1] fs]| |] eqn:Hm; cbn [mbind result_bind] in H;
      try discriminate.
    unfold AtomicInteger.get in H.
    exists self1, new1.
    destruct (quantity new1 >? 0) eqn:Hn.
    + apply Z.gtb_lt in Hn. unfold _insert_order, getitem in H.
      assert (Hb : exists head,
                 side_list self1 ot !! t = Some head /\
                 b' = set_side self1 ot
                        (<[t := insert_chain head new1]> (side_list self1 ot)) /\
                 fills = fs).
      { destruct ot; cbn [side_list set_side];
          [destruct (buy_orders self1 !! t) as [head|]
          |destruct (sell_orders self1 !! t) as [head|]];
          cbn in H; try discriminate; injection H as <- <-; eauto. }
      destruct Hb as (head & Hhead & -> & ->).
      rewrite (slot_Some _ _ _ Hhead), side_list_set_side.
      rewrite slot_insert by (eapply pyl_lookup_in_bounds; eauto).
      repeat split; auto. lia.
    + assert (Hle : quantity new1 <= 0)
        by (rewrite Z.gtb_ltb in Hn; apply Z.ltb_ge in Hn; lia).
      injection H as <- <-.
      repeat split; try (intros; lia); auto.
      intros Heq. symmetry in Heq. now apply insert_chain_neq in Heq.
  - intros head Hopp Hhead Hq.
    now apply (no_cross_rests self ot t q p [] head).
Qed.

(** The theorem at a [Buy] of 8 against a resting [Sell] of 5, of which 3
    come to rest, and at a [Sell] of 40 on the initial book. *)
Lemma remainder_handling_witness :
  (exists self1 new1,
     match_orders (book_with Sell 0 [mkOrder Sell 0 5 9]) (Order_init Buy 0 8 10)
       = Ok (self1, new1, [mkFill 10 5 0]) /\
     (0 < quantity new1 <->
      slot (side_list (book_with Buy 0 [mkOrder Buy 0 3 10]) Buy) 0
        = insert_chain (slot (side_list self1 Buy) 0) new1) /\
     (0 < quantity new1 ->
      book_with Buy 0 [mkOrder Buy 0 3 10]
        = set_side self1 Buy
            (<[0 := insert_chain (slot (side_list self1 Buy) 0) new1]>
               (side_list self1 Buy))) /\
     (quantity new1 <= 0 -> book_with Buy 0 [mkOrder Buy 0 3 10] = self1)) /\
  add_order OrderBook_init Sell 0 40 1000
    = Ok (set_side OrderBook_init Sell
            (<[0 := insert_chain [] (mkOrder Sell 0 40 1000)]>
               (side_list OrderBook_init Sell)),
          []).
Proof.
  split.
  - apply (proj1 (remainder_handling (book_with Sell 0 [mkOrder Sell 0 5 9])
                    Buy 0 8 10)).
    vm_compute. reflexivity.
  - apply (proj2 (remainder_handling OrderBook_init Sell 0 40 1000) []).
    + reflexivity.
    + reflexivity.
    + unfold valid_quantity, AtomicInteger.INT_MAX. lia.
Defined.

(** ** C8: the Book Side invariant *)

Lemma book_inv_split b : book_inv b <-> book_best_first b /\ book_resting b.
Proof.
  unfold book_inv, book_best_first, book_resting, side_inv. split.
  - intros H. split; intros side t l Hl; now apply (H side t l).
  - intros [H1 H2] side t l Hl. split; eauto.
Qed.

Lemma book_with_lookup side t l side' (k : nat) l' :
  side_list (book_with side t l) side' !! k = Some l' ->
  l' = [] \/ (side' = side /\ l' = l).
Proof.
  unfold book_with. intros H.
  destruct (side_cases side' side) as [->|Hs].
  - rewrite side_list_set_side in H.
    apply pyl_insert_lookup_nat in H as [[_ <-]|H]; [auto|].
    left. now apply OrderBook_init_lookup in H.
  - left. rewrite Hs in H.
    replace side with (opposite (opposite side)) in H at 1 by now destruct side.
    rewrite side_list_set_side_ne in H.
    now apply OrderBook_init_lookup in H.
Qed.

Lemma book_with_inv side t l : side_inv side l -> book_inv (book_with side t l).
Proof.
  intros Hl side' t' l' H.
  apply book_with_lookup in H as [->|[-> ->]]; [|assumption].
  split; constructor.
Qed.

(** C8, counterexample.  A [Sell] of 1 rests at price 10, in a book that
    satisfies the invariant.  A [Buy] of 2^31 at price 10 is stored as
    -2^31; the call records a trade of -2^31 and leaves the resting
    [Sell] with the quantity -2147483647. *)
Lemma invariant_broken_by_large_quantity :
  let self := book_with Sell 0 [mkOrder Sell 0 1 10] in
  let b' := book_with Sell 0 [mkOrder Sell 0 (-2147483647) 10] in
  0 < 2 ^ 31 /\
  book_inv self /\
  add_order self Buy 0 (2 ^ 31) 10 = Ok (b', [mkFill 10 (-2147483648) 0]) /\
  ~ book_inv b'.
Proof.
  cbv zeta. split; [lia|]. split; [|split].
  - apply book_with_inv. split; [repeat constructor|].
    repeat constructor; cbn; unfold AtomicInteger.INT_MAX; lia.
  - vm_compute. reflexivity.
  - intros H.
    assert (Hl : side_list (book_with Sell 0 [mkOrder Sell 0 (-2147483647) 10])
                   Sell !! 0%nat
                 = Some [mkOrder Sell 0 (-2147483647) 10]) by reflexivity.
    apply H in Hl as [_ Hrest]. apply Forall_cons in Hrest as [Hq _].
    unfold resting in Hq. cbn in Hq. lia.
Qed.

(** C8, amended.  Every call of [add_order] with a quantity from 1 to
    2^31 - 1 that returns preserves the invariant: each list of the book
    is ordered best price first (descending for [Buy], ascending for
    [Sell]) and every resting order has a remaining quantity strictly
    greater than zero. *)
Theorem book_inv_preserved self ot t q p b' fills :
  book_inv self ->
  valid_quantity q ->
  add_order self ot t q p = Ok (b', fills) ->
  book_inv b'.
Proof.
  intros Hinv Hq Hadd. apply book_inv_split in Hinv as [Hsorted Hresting].
  apply book_inv_split. split.
  - eapply add_order_best_first; eauto.
  - eapply add_order_resting; eauto.
Qed.

(** The theorem at a [Buy] of 8 at price 10 against a resting [Sell] of 5
    at price 9. *)
Lemma book_inv_preserved_witness :
  book_inv (book_with Buy 0 [mkOrder Buy 0 3 10]).
Proof.
  apply (book_inv_preserved (book_with Sell 0 [mkOrder Sell 0 5 9]) Buy 0 8 10
           (book_with Buy 0 [mkOrder Buy 0 3 10]) [mkFill 10 5 0]).
  - apply book_with_inv. split; [repeat constructor|].
    repeat constructor; cbn; unfold AtomicInteger.INT_MAX; lia.
  - unfold valid_quantity, AtomicInteger.INT_MAX. lia.
  - vm_compute. reflexivity.
Defined.

(** ** C9: submissions of quantity zero *)

(** C9, counterexample.  A [Sell] of 5 rests at price 10.  A [Buy] of
    quantity 0 at price 10 is not rejected: the matching loop runs and a
    trade of quantity 0 is returned. *)
Lemma zero_quantity_emits_fill :
  let self := book_with Sell 0 [mkOrder Sell 0 5 10] in
  add_order self Buy 0 0 10 = Ok (self, [mkFill 10 0 0]) /\
  [mkFill 10 0 0] <> [].
Proof. split; [vm_compute; reflexivity|discriminate]. Qed.

(** What the [Buy] loop returns for an incoming quantity of zero. *)
Lemma sweep_zero_exact p t sells :
  Forall resting sells ->
  sweep p t 0 sells
  = (sells, 0,
     match sells with
     | [] => []
     | s :: _ => if price s <=? p then [mkFill p 0 t] else []
     end).
Proof.
  unfold resting, AtomicInteger.INT_MAX. intros Hall.
  destruct sells as [|s next]; [reflexivity|].
  apply Forall_cons in Hall as [Hs0 _]. cbn [sweep].
  destruct (price s <=? p); [|reflexivity].
  assert (Hm : Z.min 0 (quantity s) = 0) by lia. rewrite Hm.
  rewrite !Z.sub_0_r.
  destruct (quantity s =? 0) eqn:Hs; [apply Z.eqb_eq in Hs; lia|].
  rewrite c_int_0, c_int_id, set_quantity_same; [reflexivity|].
  unfold AtomicInteger.in_range, AtomicInteger.INT_MIN, AtomicInteger.INT_MAX.
  lia.
Qed.

(** A call whose matching phase leaves the opposite list as it was and
    nothing of the incoming order returns the book unchanged. *)
Lemma add_order_unchanged self ot t q p opp fs :
  side_list self (opposite ot) !! t = Some opp ->
  matching ot p t (AtomicInteger.c_int q) opp = Some (opp, 0, fs) ->
  add_order self ot t q p = Ok (self, fs).
Proof.
  intros Hopp Hm.
  apply (add_order_of_after self ot t q p opp opp 0 fs self Hopp Hm).
  left. split; [lia|].
  now rewrite (pyl_insert_id _ _ _ Hopp), set_side_same.
Qed.

(** C9, amended.  A submission of quantity zero is not rejected.  On a
    book whose resting quantities are positive, for a ticker whose slot
    of the opposite side exists:
    - if the opposite list is empty or its first order does not cross,
      the call returns, with no trade;
    - if the order is a [Buy] and the first resting [Sell] crosses, the
      call returns, with exactly one trade, of quantity zero at the
      price and ticker of the submission;
    - whenever the call returns, it is in one of these two cases, and
      the book is unchanged (both sides, and the remaining quantity of
      every resting order). *)
Theorem zero_quantity_no_effect self ot t p opp :
  book_resting self ->
  side_list self (opposite ot) !! t = Some opp ->
  (match opp with
   | [] => True
   | h :: _ => crosses ot p h = false
   end ->
   add_order self ot t 0 p = Ok (self, [])) /\
  (ot = Buy ->
   (exists s next, opp = s :: next /\ price s <= p) ->
   add_order self ot t 0 p = Ok (self, [mkFill p 0 t])) /\
  (forall b' fills,
     add_order self ot t 0 p = Ok (b', fills) ->
     b' = self /\
     ((match opp with
       | [] => True
       | h :: _ => crosses ot p h = false
       end /\ fills = []) \/
      (ot = Buy /\ (exists s next, opp = s :: next /\ price s <= p) /\
       fills = [mkFill p 0 t]))).
Proof.
  intros Hself Hopp.
  pose proof (book_resting_at _ _ _ _ Hself Hopp) as Hresting.
  assert (Hnone : match opp with
                  | [] => True
                  | h :: _ => crosses ot p h = false
                  end ->
                  add_order self ot t 0 p = Ok (self, [])).
  { intros Hno. apply (add_order_unchanged self ot t 0 p opp [] Hopp).
    rewrite c_int_0. destruct ot; cbn [matching].
    - rewrite (sweep_zero_exact p t opp Hresting).
      destruct opp as [|h rest]; [reflexivity|].
      cbn [crosses] in Hno. now rewrite Hno.
    - destruct opp as [|h rest]; [reflexivity|].
      cbn [crosses] in Hno. now rewrite Hno. }
  assert (Hone : ot = Buy ->
                 (exists s next, opp = s :: next /\ price s <= p) ->
                 add_order self ot t 0 p = Ok (self, [mkFill p 0 t])).
  { intros -> (s & next & -> & Hp).
    apply (add_order_unchanged self Buy t 0 p (s :: next) [mkFill p 0 t] Hopp).
    rewrite c_int_0. cbn [matching].
    rewrite (sweep_zero_exact p t (s :: next) Hresting).
    assert (Hc : (price s <=? p) = true) by lia. now rewrite Hc. }
  split; [exact Hnone|]. split; [exact Hone|].
  intros b' fills Hadd.
  destruct opp as [|h rest].
  - rewrite (Hnone I) in Hadd. injection Hadd as <- <-. auto.
  - destruct (crosses ot p h) eqn:Hc.
    + destruct ot; cbn [crosses] in Hc.
      * assert (Hex : exists s next, h :: rest = s :: next /\ price s <= p)
          by (exists h, rest; split; [reflexivity|lia]).
        rewrite (Hone eq_refl Hex) in Hadd. injection Hadd as <- <-.
        split; [reflexivity|]. right. auto.
      * cbn [side_list opposite] in Hopp.
        rewrite (sell_crossing_raises self t 0 p h rest Hopp) in Hadd by lia.
        discriminate.
    + rewrite (Hnone eq_refl) in Hadd. injection Hadd as <- <-. auto.
Qed.

(** The theorem on a book with a [Sell] of 5 resting at price 10: a [Buy]
    of quantity zero at price 9 returns no trade, one at price 10 returns
    one trade of quantity zero. *)
Lemma zero_quantity_no_effect_witness :
  add_order (book_with Sell 0 [mkOrder Sell 0 5 10]) Buy 0 0 9
    = Ok (book_with Sell 0 [mkOrder Sell 0 5 10], []) /\
  add_order (book_with Sell 0 [mkOrder Sell 0 5 10]) Buy 0 0 10
    = Ok (book_with Sell 0 [mkOrder Sell 0 5 10], [mkFill 10 0 0]).
Proof.
  assert (Hself : book_resting (book_with Sell 0 [mkOrder Sell 0 5 10])).
  { intros side k l H. apply (book_with_inv Sell 0 [mkOrder Sell 0 5 10]) in H.
    - exact (proj2 H).
    - split; [repeat constructor|].
      repeat constructor; cbn; unfold AtomicInteger.INT_MAX; lia. }
  split.
  - apply (proj1 (zero_quantity_no_effect
                    (book_with Sell 0 [mkOrder Sell 0 5 10]) Buy 0 9
                    [mkOrder Sell 0 5 10] Hself eq_refl)).
    reflexivity.
  - apply (proj1 (proj2 (zero_quantity_no_effect
                           (book_with Sell 0 [mkOrder Sell 0 5 10]) Buy 0 10
                           [mkOrder Sell 0 5 10] Hself eq_refl))).
    + reflexivity.
    + exists (mkOrder Sell 0 5 10), []. split; [reflexivity|cbn; lia].
Defined.

(** ** C10: the other tickers *)

(** C10, counterexample.  A [Sell] of 5 rests at price 10 for ticker 1023.
    A [Buy] of 5 at price 10 is submitted with ticker -1, which Python's
    list indexing takes as slot 1023: the call trades against the [Sell]
    of ticker 1023 and removes it, although 1023 is not the ticker of
    the submission. *)
Lemma frame_broken_by_negative_ticker :
  let self := book_with Sell 1023 [mkOrder Sell 1023 5 10] in
  add_order self Buy (-1) 5 10 = Ok (OrderBook_init, [mkFill 10 5 (-1)]) /\
  1023 <> -1 /\
  sell_orders self !! 1023 = Some [mkOrder Sell 1023 5 10] /\
  sell_orders OrderBook_init !! 1023 = Some [].
Proof.
  cbv zeta. split; [vm_compute; reflexivity|]. split; [lia|].
  split; vm_compute; reflexivity.
Qed.

(** The lists at the positions that the ticker of a call does not
    denote are as they were. *)
Lemma add_order_other_slots self ot t q p b' fills side (k : nat) :
  add_order self ot t q p = Ok (b', fills) ->
  py_index (length (side_list self side)) t <> Some k ->
  side_list b' side !! k = side_list self side !! k.
Proof.
  intros H Hne.
  apply add_order_Ok in H as (opp & l & n' & _ & _ & Hafter).
  apply book_after_sides in Hafter as [Hopp Hown].
  destruct (side_cases side ot) as [->| ->].
  - destruct Hown as [[_ ->]|(_ & head & _ & ->)]; [reflexivity|].
    now apply pyl_insert_lookup_nat_ne.
  - rewrite Hopp. now apply pyl_insert_lookup_nat_ne.
Qed.

Lemma add_order_other_tickers self ot t q p b' fills side t' :
  add_order self ot t q p = Ok (b', fills) ->
  0 <= t -> 0 <= t' -> t' <> t ->
  side_list b' side !! t' = side_list self side !! t'.
Proof.
  intros H H0 H0' Hne.
  apply add_order_Ok in H as (opp & l & n' & _ & _ & Hafter).
  apply book_after_sides in Hafter as [Hopp Hown].
  destruct (side_cases side ot) as [->| ->].
  - destruct Hown as [[_ ->]|(_ & head & _ & ->)]; [reflexivity|].
    apply pyl_lookup_insert_nonneg_ne; auto.
  - rewrite Hopp. apply pyl_lookup_insert_nonneg_ne; auto.
Qed.

(** C10, amended.  For tickers that are indices from 0 on: a call of
    [add_order] for ticker [t] that returns leaves the [Buy] list and the
    [Sell] list of every other ticker as they were.  (A negative ticker
    is taken as an index from the end of the arrays and shares the lists
    of the ticker it stands for.) *)
Theorem add_order_frame self ot t q p b' fills t' :
  add_order self ot t q p = Ok (b', fills) ->
  0 <= t -> 0 <= t' ->
  t' <> t ->
  buy_orders b' !! t' = buy_orders self !! t' /\
  sell_orders b' !! t' = sell_orders self !! t'.
Proof.
  intros H H0 H0' Hne. split.
  - apply (add_order_other_tickers self ot t q p b' fills Buy t' H H0 H0' Hne).
  - apply (add_order_other_tickers self ot t q p b' fills Sell t' H H0 H0' Hne).
Qed.

(** The theorem at a [Buy] for ticker 0, read at ticker 1. *)
Lemma add_order_frame_witness :
  buy_orders (book_with Buy 0 [mkOrder Buy 0 3 10]) !! 1
    = buy_orders (book_with Sell 0 [mkOrder Sell 0 5 9]) !! 1 /\
  sell_orders (book_with Buy 0 [mkOrder Buy 0 3 10]) !! 1
    = sell_orders (book_with Sell 0 [mkOrder Sell 0 5 9]) !! 1.
Proof.
  apply (add_order_frame (book_with Sell 0 [mkOrder Sell 0 5 9]) Buy 0 8 10
           (book_with Buy 0 [mkOrder Buy 0 3 10]) [mkFill 10 5 0] 1).
  - vm_compute. reflexivity.
  - lia.
  - lia.
  - lia.
Defined.

(** * Further properties of the program *)

(** ** [AtomicInteger]: stored and returned values *)

Lemma c_int_shift z k : AtomicInteger.c_int (z + k * 2 ^ 32) = AtomicInteger.c_int z.
Proof.
  unfold AtomicInteger.c_int.
  replace (z + k * 2 ^ 32 + 2 ^ 31) with (z + 2 ^ 31 + k * 2 ^ 32) by lia.
  now rewrite Z.mod_add by lia.
Qed.

Lemma c_int_decompose z : exists k, AtomicInteger.c_int z = z + k * 2 ^ 32.
Proof.
  unfold AtomicInteger.c_int.
  exists (- ((z + 2 ^ 31) / 2 ^ 32)).
  pose proof (Z.div_mod (z + 2 ^ 31) (2 ^ 32)). lia.
Qed.

(** X1.  [subtract] undoes [add] on the stored value, whether or not the
    sum fits in 32 bits. *)
Theorem add_subtract_roundtrip self delta :
  AtomicInteger.in_range self ->
  fst (AtomicInteger.subtract (fst (AtomicInteger.add self delta)) delta) = self.
Proof.
  intros Hr. unfold AtomicInteger.subtract, AtomicInteger.add, AtomicInteger.get.
  cbn [fst].
  destruct (c_int_decompose (self + delta)) as [k Hk]. rewrite Hk.
  replace (self + delta + k * 2 ^ 32 + - delta) with (self + k * 2 ^ 32) by lia.
  rewrite c_int_shift. now apply c_int_id.
Qed.

(** The theorem at the largest value and an increment of 1, where the
    stored sum wraps around. *)
Lemma add_subtract_roundtrip_witness :
  fst (AtomicInteger.subtract
         (fst (AtomicInteger.add AtomicInteger.INT_MAX 1)) 1)
  = AtomicInteger.INT_MAX.
Proof.
  apply (add_subtract_roundtrip AtomicInteger.INT_MAX 1).
  unfold AtomicInteger.in_range, AtomicInteger.INT_MIN, AtomicInteger.INT_MAX. lia.
Defined.

(** X2.  [add] stores a value of the [c_int] range, and the value it
    returns is the stored one exactly when the sum is in that range. *)
Theorem add_stored_and_returned self delta :
  AtomicInteger.in_range (fst (AtomicInteger.add self delta)) /\
  (fst (AtomicInteger.add self delta) = snd (AtomicInteger.add self delta)
   <-> AtomicInteger.in_range (AtomicInteger.get self + delta)).
Proof.
  unfold AtomicInteger.add. cbn [fst snd]. split; [apply c_int_in_range|].
  split.
  - intros <-. apply c_int_in_range.
  - apply c_int_id.
Qed.

(** ** The [Buy] loop ends *)

(** X3.  Started on the list of the slot, the [Buy] loop returns after at
    most one iteration per resting order and one more, whatever the
    quantities are; more fuel does not change what it returns. *)
Theorem match_buy_loop_terminates fuel self new_order sells trades :
  sell_orders self !! ticker new_order = Some sells ->
  (length sells < fuel)%nat ->
  exists r,
    match_buy_loop (S (length sells)) self new_order sells trades = Ok r /\
    match_buy_loop fuel self new_order sells trades = Ok r.
Proof.
  intros Hslot Hfuel.
  rewrite (match_buy_loop_sweep fuel _ _ _ _ Hslot Hfuel).
  rewrite (match_buy_loop_sweep (S (length sells)) _ _ _ _ Hslot) by lia.
  destruct (sweep _ _ _ sells) as [[l n'] fs]. eauto.
Qed.

(** The theorem at an incoming order of negative quantity against two
    resting orders, with fuel 10. *)
Lemma match_buy_loop_terminates_witness :
  exists r,
    match_buy_loop 3 (book_with Sell 0 [mkOrder Sell 0 4 9; mkOrder Sell 0 0 10])
      (mkOrder Buy 0 (-3) 10) [mkOrder Sell 0 4 9; mkOrder Sell 0 0 10] []
      = Ok r /\
    match_buy_loop 10 (book_with Sell 0 [mkOrder Sell 0 4 9; mkOrder Sell 0 0 10])
      (mkOrder Buy 0 (-3) 10) [mkOrder Sell 0 4 9; mkOrder Sell 0 0 10] []
      = Ok r.
Proof.
  apply (match_buy_loop_terminates 10
           (book_with Sell 0 [mkOrder Sell 0 4 9; mkOrder Sell 0 0 10])
           (mkOrder Buy 0 (-3) 10) [mkOrder Sell 0 4 9; mkOrder Sell 0 0 10] []).
  - reflexivity.
  - cbn. lia.
Defined.

(** ** When [add_order] raises *)

Lemma matching_None side p t n opp :
  matching side p t n opp = None <->
  side = Sell /\ exists bo next, opp = bo :: next /\ p <= price bo.
Proof.
  split.
  - destruct side; [discriminate|]. cbn.
    destruct opp as [|bo next]; [discriminate|].
    destruct (price bo >=? p) eqn:Hc; [|discriminate].
    intros _. split; [reflexivity|]. exists bo, next. split; [reflexivity|lia].
  - intros (-> & bo & next & -> & Hp). cbn.
    assert (Hc : (price bo >=? p) = true) by lia. now rewrite Hc.
Qed.

(** The outcomes of [add_order], by the slot of the opposite side, the
    matching phase and the slot of the own side. *)
Lemma add_order_cases self ot t q p :
  match side_list self (opposite ot) !! t with
  | None => add_order self ot t q p = Raise IndexError
  | Some opp =>
      match matching ot p t (AtomicInteger.c_int q) opp with
      | None => add_order self ot t q p = Raise TypeError
      | Some (l, n', fs) =>
          if n' >? 0 then
            match side_list self ot !! t with
            | None => add_order self ot t q p = Raise IndexError
            | Some head => exists b', add_order self ot t q p = Ok (b', fs)
            end
          else exists b', add_order self ot t q p = Ok (b', fs)
      end
  end.
Proof.
  unfold add_order, Order_init, AtomicInteger.init.
  destruct (side_list self (opposite ot) !! t) as [opp|] eqn:Hopp.
  2:{ now rewrite (match_orders_index _ _ _ _ _ Hopp). }
  rewrite (match_orders_spec _ _ _ _ _ _ Hopp).
  destruct (matching ot p t (AtomicInteger.c_int q) opp) as [[[l n'] fs]|];
    [|reflexivity].
  cbn [mbind result_bind quantity]. unfold AtomicInteger.get.
  destruct (n' >? 0); [|destruct ot; eauto].
  unfold _insert_order, getitem.
  destruct ot; cbn [side_list set_side set_buy_orders set_sell_orders opposite
                      buy_orders sell_orders].
  - destruct (buy_orders self !! t); cbn; eauto.
  - destruct (sell_orders self !! t); cbn; eauto.
Qed.

(** X4.  On a book whose two arrays have the same length [len],
    [add_order] raises [IndexError] exactly when the ticker is not a
    Python index of the arrays: below [- len], or [len] and above. *)
Theorem add_order_IndexError self ot t q p :
  length (buy_orders self) = length (sell_orders self) ->
  (add_order self ot t q p = Raise IndexError
   <-> t < - Z.of_nat (length (buy_orders self))
       \/ Z.of_nat (length (buy_orders self)) <= t).
Proof.
  intros Hlen.
  assert (Hl : forall side, length (side_list self side) = length (buy_orders self))
    by (intros []; cbn; congruence).
  assert (Hnone : forall side,
             side_list self side !! t = None <->
             t < - Z.of_nat (length (buy_orders self))
             \/ Z.of_nat (length (buy_orders self)) <= t).
  { intros side. rewrite pyl_lookup_None, py_index_None, Hl. reflexivity. }
  pose proof (add_order_cases self ot t q p) as Hc.
  split.
  - intros Hraise.
    destruct (side_list self (opposite ot) !! t) as [opp|] eqn:Hopp.
    + destruct (matching ot p t (AtomicInteger.c_int q) opp) as [[[l n'] fs]|];
        [|congruence].
      destruct (n' >? 0).
      * destruct (side_list self ot !! t) eqn:Hown.
        -- destruct Hc as [b' Hc]. congruence.
        -- now apply (Hnone ot).
      * destruct Hc as [b' Hc]. congruence.
    + now apply (Hnone (opposite ot)).
  - intros Hge.
    assert (Hopp : side_list self (opposite ot) !! t = None)
      by now apply (Hnone (opposite ot)).
    now rewrite Hopp in Hc.
Qed.

(** The theorem on the initial book at ticker -1025. *)
Lemma add_order_IndexError_witness :
  add_order OrderBook_init Buy (-1025) 10 100 = Raise IndexError.
Proof.
  apply (proj2 (add_order_IndexError OrderBook_init Buy (-1025) 10 100 eq_refl)).
  unfold OrderBook_init. cbn [buy_orders]. rewrite length_replicate. lia.
Defined.

(** X5.  [add_order] raises [TypeError] exactly when a [Sell] meets a best
    resting [Buy] of its ticker at its price or above. *)
Theorem add_order_TypeError self ot t q p :
  add_order self ot t q p = Raise TypeError
  <-> ot = Sell /\
      exists bo next, buy_orders self !! t = Some (bo :: next) /\ p <= price bo.
Proof.
  pose proof (add_order_cases self ot t q p) as Hc.
  split.
  - intros Hraise.
    destruct (side_list self (opposite ot) !! t) as [opp|] eqn:Hopp; [|congruence].
    destruct (matching ot p t (AtomicInteger.c_int q) opp) as [[[l n'] fs]|] eqn:Hm.
    + destruct (n' >? 0); [destruct (side_list self ot !! t)|];
        try congruence; destruct Hc as [b' Hc]; congruence.
    + apply matching_None in Hm as (-> & bo & next & -> & Hp).
      split; [reflexivity|]. exists bo, next. split; assumption.
  - intros (-> & bo & next & Hslot & Hp).
    now apply (sell_crossing_raises self t q p bo next).
Qed.

(** The theorem at a [Sell] at price 9 against a resting [Buy] at 10. *)
Lemma add_order_TypeError_witness :
  add_order (book_with Buy 0 [mkOrder Buy 0 10 10]) Sell 0 10 9 = Raise TypeError.
Proof.
  apply (proj2 (add_order_TypeError (book_with Buy 0 [mkOrder Buy 0 10 10])
                  Sell 0 10 9)).
  split; [reflexivity|].
  exists (mkOrder Buy 0 10 10), []. split; [reflexivity|cbn; lia].
Defined.

(** X6.  A [Sell] whose call returns is never matched: the call returns no
    trade and leaves the [Buy] array as it was. *)
Theorem sell_returns_no_trade self t q p b' fills :
  add_order self Sell t q p = Ok (b', fills) ->
  fills = [] /\ buy_orders b' = buy_orders self.
Proof.
  intros H. apply add_order_Ok in H as (opp & l & n' & Hopp & Hm & Hafter).
  apply matching_sell_inv in Hm as (-> & _ & -> & _).
  split; [reflexivity|].
  apply book_after_sides in Hafter as [Hopp' _].
  cbn [side_list opposite] in Hopp, Hopp'.
  now rewrite Hopp', (pyl_insert_id _ _ _ Hopp).
Qed.

(** The theorem at a [Sell] at price 11 against a resting [Buy] at 10. *)
Lemma sell_returns_no_trade_witness :
  @nil Fill = [] /\
  buy_orders
    (mkBook (buy_orders (book_with Buy 0 [mkOrder Buy 0 10 10]))
            (sell_orders (book_with Sell 0 [mkOrder Sell 0 7 11])))
  = buy_orders (book_with Buy 0 [mkOrder Buy 0 10 10]).
Proof.
  apply (sell_returns_no_trade (book_with Buy 0 [mkOrder Buy 0 10 10]) 0 7 11).
  vm_compute. reflexivity.
Defined.

(** ** More on [_insert_order] *)

(** X7.  [_insert_order] adds the new order to the list of the slot and
    nothing else: that list afterwards is a permutation of the new order
    and the orders it held, the slots at every position other than the
    one the ticker denotes are as they were and the array keeps its
    length. *)
Theorem _insert_order_permutation order_list t new_order order_list' :
  _insert_order order_list t new_order = Ok order_list' ->
  length order_list' = length order_list /\
  (forall k : nat,
     py_index (length order_list) t <> Some k ->
     order_list' !! k = order_list !! k) /\
  Permutation (slot order_list' t) (new_order :: slot order_list t).
Proof.
  unfold _insert_order, getitem. intros H.
  destruct (order_list !! t) as [head|] eqn:Hhead; [|discriminate].
  cbn in H. injection H as <-.
  split; [apply pyl_length_insert|]. split.
  - intros k Hne. now apply pyl_insert_lookup_nat_ne.
  - rewrite slot_insert by (eapply pyl_lookup_in_bounds; eauto).
    rewrite (slot_Some _ _ _ Hhead).
    destruct (insert_chain_split head new_order) as (l1 & l2 & -> & -> & _).
    symmetry. apply Permutation_middle.
Qed.

(** The theorem at the insertion of a [Buy] at price 9 after a [Buy] at
    price 10. *)
Lemma _insert_order_permutation_witness :
  length (buy_orders (book_with Buy 0 [mkOrder Buy 0 5 10; mkOrder Buy 0 7 9]))
    = length (buy_orders (book_with Buy 0 [mkOrder Buy 0 5 10])) /\
  (forall k : nat,
     py_index (length (buy_orders (book_with Buy 0 [mkOrder Buy 0 5 10]))) 0
       <> Some k ->
     buy_orders (book_with Buy 0 [mkOrder Buy 0 5 10; mkOrder Buy 0 7 9]) !! k
     = buy_orders (book_with Buy 0 [mkOrder Buy 0 5 10]) !! k) /\
  Permutation
    (slot (buy_orders (book_with Buy 0 [mkOrder Buy 0 5 10; mkOrder Buy 0 7 9])) 0)
    (mkOrder Buy 0 7 9 :: slot (buy_orders (book_with Buy 0 [mkOrder Buy 0 5 10])) 0).
Proof.
  apply (_insert_order_permutation
           (buy_orders (book_with Buy 0 [mkOrder Buy 0 5 10])) 0
           (mkOrder Buy 0 7 9)).
  vm_compute. reflexivity.
Defined.

Lemma ahead_of_price_lt nxt new_order :
  price_lt (order_type new_order) nxt new_order -> ahead_of nxt new_order = true.
Proof.
  unfold ahead_of, price_lt. destruct (order_type new_order); cbn; lia.
Qed.

Lemma not_ahead_of_price_le nxt new_order :
  price_le (order_type new_order) new_order nxt -> ahead_of nxt new_order = false.
Proof.
  unfold ahead_of, price_le. destruct (order_type new_order); cbn; lia.
Qed.

Lemma filter_all {A} (f : A -> bool) l :
  Forall (fun x => f x = true) l -> List.filter f l = l.
Proof.
  induction 1 as [|x l Hx _ IH]; [reflexivity|]. cbn. now rewrite Hx, IH.
Qed.

Lemma filter_none {A} (f : A -> bool) l :
  Forall (fun x => f x = false) l -> List.filter f l = [].
Proof.
  induction 1 as [|x l Hx _ IH]; [reflexivity|]. cbn. now rewrite Hx, IH.
Qed.

Lemma Sorted_app_r {A} (R : A -> A -> Prop) l1 l2 :
  Sorted R (l1 ++ l2) -> Sorted R l2.
Proof.
  induction l1 as [|x l1 IH]; [trivial|].
  cbn. intros H. apply Sorted_inv in H as [H _]. auto.
Qed.

Lemma best_first_all side h rest :
  best_first side (h :: rest) -> Forall (price_le side h) rest.
Proof.
  unfold best_first. intros Hs. apply Sorted_StronglySorted in Hs.
  - now apply StronglySorted_inv in Hs as [_ Hall].
  - intros a b c. apply price_le_trans.
Qed.

(** In a list ordered best price first, the new order is linked after the
    orders of strictly better price and before all the others. *)
Lemma insert_chain_position head new_order :
  best_first (order_type new_order) head ->
  insert_chain head new_order
  = List.filter (fun o => ahead_of o new_order) head
    ++ new_order :: List.filter (fun o => negb (ahead_of o new_order)) head.
Proof.
  intros Hs.
  destruct (insert_chain_split head new_order) as (l1 & l2 & -> & -> & Hl1 & Hl2).
  assert (H1 : Forall (fun o => ahead_of o new_order = true) l1).
  { eapply Forall_impl; [exact Hl1|]. intros o. apply ahead_of_price_lt. }
  assert (H2 : Forall (fun o => ahead_of o new_order = false) l2).
  { apply Sorted_app_r in Hs. destruct l2 as [|h rest]; [constructor|].
    apply best_first_all in Hs.
    constructor; [now apply not_ahead_of_price_le|].
    eapply Forall_impl; [exact Hs|]. intros o Ho.
    apply not_ahead_of_price_le. eapply price_le_trans; eauto. }
  rewrite !List.filter_app.
  rewrite (filter_all _ l1 H1), (filter_none _ l2 H2), app_nil_r.
  rewrite (filter_none (fun o => negb (ahead_of o new_order)) l1),
    (filter_all (fun o => negb (ahead_of o new_order)) l2); [reflexivity| |].
  - eapply Forall_impl; [exact H2|]. cbn. now intros o ->.
  - eapply Forall_impl; [exact H1|]. cbn. now intros o ->.
Qed.

(** X8.  On a slot whose list is ordered best price first, [_insert_order]
    puts the new order after exactly the resting orders of strictly
    better price, and before all the others, whose order is kept. *)
Theorem _insert_order_position order_list t new_order head :
  order_list !! t = Some head ->
  best_first (order_type new_order) head ->
  _insert_order order_list t new_order
  = Ok (<[t := List.filter (fun o => ahead_of o new_order) head
              ++ new_order
              :: List.filter (fun o => negb (ahead_of o new_order)) head]>
          order_list).
Proof.
  intros Hhead Hs. unfold _insert_order.
  rewrite (getitem_Some _ _ _ Hhead). cbn [mbind result_bind].
  now rewrite insert_chain_position.
Qed.

(** The theorem at a [Buy] at price 10 inserted into a list of three
    [Buy] orders at prices 11, 10 and 9. *)
Lemma _insert_order_position_witness :
  _insert_order
    (buy_orders (book_with Buy 0
       [mkOrder Buy 0 1 11; mkOrder Buy 0 2 10; mkOrder Buy 0 3 9]))
    0 (mkOrder Buy 0 4 10)
  = Ok (<[0 :=
          List.filter (fun o => ahead_of o (mkOrder Buy 0 4 10))
            [mkOrder Buy 0 1 11; mkOrder Buy 0 2 10; mkOrder Buy 0 3 9]
          ++ mkOrder Buy 0 4 10
          :: List.filter (fun o => negb (ahead_of o (mkOrder Buy 0 4 10)))
               [mkOrder Buy 0 1 11; mkOrder Buy 0 2 10; mkOrder Buy 0 3 9]]>
          (buy_orders (book_with Buy 0
             [mkOrder Buy 0 1 11; mkOrder Buy 0 2 10; mkOrder Buy 0 3 9]))).
Proof.
  apply (_insert_order_position
           (buy_orders (book_with Buy 0
              [mkOrder Buy 0 1 11; mkOrder Buy 0 2 10; mkOrder Buy 0 3 9]))
           0 (mkOrder Buy 0 4 10)
           [mkOrder Buy 0 1 11; mkOrder Buy 0 2 10; mkOrder Buy 0 3 9]).
  - reflexivity.
  - repeat constructor; cbn; lia.
Defined.

(** ** More on the matching of a [Buy] *)

Ltac c_int_pos :=
  apply c_int_id;
  unfold AtomicInteger.in_range, AtomicInteger.INT_MIN, AtomicInteger.INT_MAX;
  lia.

Lemma sweep_fill_bounds p t n sells l n' fs :
  sweep p t n sells = (l, n', fs) ->
  Forall resting sells -> 0 < n <= AtomicInteger.INT_MAX ->
  Forall (fun f => 0 < fill_quantity f <= n) fs.
Proof.
  unfold resting, AtomicInteger.INT_MAX.
  revert n l n' fs. induction sells as [|s next IH]; intros n l n' fs.
  - cbn [sweep]. intros [= <- <- <-]. constructor.
  - sweep_cases s n p; intros Heq Hall Hn0;
      apply Forall_cons in Hall as [Hs0 Hall].
    + injection Heq as <- <- <-. repeat constructor; cbn [fill_quantity]; lia.
    + destruct (sweep p t _ next) as [[l0 n0] fs0] eqn:Hrec.
      injection Heq as <- <- <-.
      apply Z.eqb_eq in Hs. apply Z.eqb_neq in Hn.
      assert (Hc : AtomicInteger.c_int (n - Z.min n (quantity s))
                   = n - Z.min n (quantity s)) by c_int_pos.
      rewrite Hc in Hrec.
      constructor; [cbn [fill_quantity]; lia|].
      assert (Hn1 : 0 < n - Z.min n (quantity s) <= 2147483647) by lia.
      specialize (IH _ _ _ _ Hrec Hall Hn1).
      eapply Forall_impl; [exact IH|]. cbn. intros f Hf. lia.
    + injection Heq as <- <- <-. repeat constructor; cbn [fill_quantity]; lia.
    + injection Heq as <- <- <-. constructor.
Qed.

(** X9.  With positive resting quantities and a submitted quantity from 1
    to 2^31 - 1, every trade returned has the ticker of the submission
    and a quantity from 1 to the submitted quantity. *)
Theorem fills_bounded self ot t q p b' fills :
  book_resting self ->
  valid_quantity q ->
  add_order self ot t q p = Ok (b', fills) ->
  Forall (fun f => fill_ticker f = t /\ 0 < fill_quantity f <= q) fills.
Proof.
  intros Hself Hq Hadd.
  apply add_order_Ok in Hadd as (opp & l & n' & Hopp & Hm & _).
  pose proof (matching_fills _ _ _ _ _ _ _ _ Hm) as Hf.
  assert (Hb : Forall (fun f => 0 < fill_quantity f <= q) fills).
  { destruct ot.
    - cbn [matching] in Hm. injection Hm as Hm.
      rewrite (c_int_valid _ Hq) in Hm.
      exact (sweep_fill_bounds _ _ _ _ _ _ _ Hm
               (book_resting_at _ _ _ _ Hself Hopp) Hq).
    - apply matching_sell_inv in Hm as (_ & _ & -> & _). constructor. }
  apply Forall_and. split; [|assumption].
  eapply Forall_impl; [exact Hf|]. now intros f [_ Ht].
Qed.

(** The theorem at a [Buy] of 100 against resting [Sell]s of 30 and 50. *)
Lemma fills_bounded_witness :
  Forall (fun f => fill_ticker f = 0 /\ 0 < fill_quantity f <= 100)
    [mkFill 1000 30 0; mkFill 1000 50 0].
Proof.
  apply (fills_bounded
           (book_with Sell 0 [mkOrder Sell 0 30 950; mkOrder Sell 0 50 1000])
           Buy 0 100 1000
           (book_with Buy 0 [mkOrder Buy 0 20 1000])).
  - intros side t l H.
    apply (book_with_inv Sell 0 [mkOrder Sell 0 30 950; mkOrder Sell 0 50 1000])
      in H; [exact (proj2 H)|].
    split; repeat constructor; cbn; unfold AtomicInteger.INT_MAX; lia.
  - unfold valid_quantity, AtomicInteger.INT_MAX. lia.
  - vm_compute. reflexivity.
Defined.

Lemma sweep_shape p t n sells l n' fs :
  sweep p t n sells = (l, n', fs) ->
  Forall resting sells -> 0 < n <= AtomicInteger.INT_MAX ->
  exists k,
    (l = drop k sells /\
     map fill_quantity fs = map quantity (take k sells)) \/
    (exists s r,
       sells !! k = Some s /\ 0 < r < quantity s /\
       l = set_quantity s r :: drop (S k) sells /\
       map fill_quantity fs = map quantity (take k sells) ++ [quantity s - r]).
Proof.
  unfold resting, AtomicInteger.INT_MAX.
  revert n l n' fs. induction sells as [|s next IH]; intros n l n' fs.
  - cbn [sweep]. intros [= <- <- <-] _ _. exists 0%nat. left. split; reflexivity.
  - sweep_cases s n p; intros Heq Hall Hn0;
      apply Forall_cons in Hall as [Hs0 Hall].
    + injection Heq as <- <- <-. apply Z.eqb_eq in Hs.
      exists 1%nat. left. cbn. split; [now rewrite drop_0|].
      rewrite take_0. cbn. f_equal. lia.
    + destruct (sweep p t _ next) as [[l0 n0] fs0] eqn:Hrec.
      injection Heq as <- <- <-.
      apply Z.eqb_eq in Hs. apply Z.eqb_neq in Hn.
      assert (Hc : AtomicInteger.c_int (n - Z.min n (quantity s))
                   = n - Z.min n (quantity s)) by c_int_pos.
      rewrite Hc in Hrec.
      assert (Hn1 : 0 < n - Z.min n (quantity s) <= 2147483647) by lia.
      destruct (IH _ _ _ _ Hrec Hall Hn1)
        as [k [[-> Hfs]|(s0 & r & Hk & Hr & -> & Hfs)]];
        exists (S k); [left|right].
      * split; [reflexivity|]. cbn. rewrite Hfs. f_equal. lia.
      * exists s0, r. repeat split; try assumption; try lia.
        cbn. rewrite Hfs. f_equal. lia.
    + injection Heq as <- <- <-. apply Z.eqb_neq in Hs.
      assert (Hm : Z.min n (quantity s) = n) by lia. rewrite Hm.
      exists 0%nat. right. exists s, (quantity s - n).
      assert (Hc : AtomicInteger.c_int (quantity s - n) = quantity s - n)
        by c_int_pos.
      rewrite Hc. cbn. rewrite drop_0.
      repeat split; try lia. f_equal. lia.
    + injection Heq as <- <- <-. exists 0%nat. left. split; reflexivity.
Qed.

(** X10.  A [Buy] consumes the resting [Sell] orders of its ticker from the
    front of the list and in order: for some [k], the first [k] orders are
    drained and removed, each by one trade of its whole quantity, and
    either the rest of the list is untouched, or its first order stays
    with a smaller positive quantity, the difference being the last
    trade. *)
Theorem buy_consumes_prefix self t q p sells b' fills :
  book_resting self ->
  valid_quantity q ->
  sell_orders self !! t = Some sells ->
  add_order self Buy t q p = Ok (b', fills) ->
  exists k,
    (slot (sell_orders b') t = drop k sells /\
     map fill_quantity fills = map quantity (take k sells)) \/
    (exists s r,
       sells !! k = Some s /\ 0 < r < quantity s /\
       slot (sell_orders b') t = set_quantity s r :: drop (S k) sells /\
       map fill_quantity fills = map quantity (take k sells) ++ [quantity s - r]).
Proof.
  intros Hself Hq Hsells Hadd.
  apply add_order_Ok in Hadd as (opp & l & n' & Hopp & Hm & Hafter).
  apply book_after_sides in Hafter as [Hopp' _].
  cbn [side_list opposite] in Hopp, Hopp'.
  rewrite Hsells in Hopp. injection Hopp as <-.
  rewrite Hopp', slot_insert by (eapply pyl_lookup_in_bounds; eauto).
  cbn [matching] in Hm. injection Hm as Hm. rewrite (c_int_valid _ Hq) in Hm.
  exact (sweep_shape _ _ _ _ _ _ _ Hm
           (book_resting_at self Sell t sells Hself Hsells) Hq).
Qed.

(** The theorem at a [Buy] of 40 against resting [Sell]s of 30 and 50: the
    first is drained, the second stays with 40. *)
Lemma buy_consumes_prefix_witness :
  exists k,
    (slot (sell_orders (book_with Sell 0 [mkOrder Sell 0 40 1000])) 0
       = drop k [mkOrder Sell 0 30 950; mkOrder Sell 0 50 1000] /\
     map fill_quantity [mkFill 1000 30 0; mkFill 1000 10 0]
       = map quantity (take k [mkOrder Sell 0 30 950; mkOrder Sell 0 50 1000])) \/
    (exists s r,
       [mkOrder Sell 0 30 950; mkOrder Sell 0 50 1000] !! k = Some s /\
       0 < r < quantity s /\
       slot (sell_orders (book_with Sell 0 [mkOrder Sell 0 40 1000])) 0
         = set_quantity s r :: drop (S k) [mkOrder Sell 0 30 950; mkOrder Sell 0 50 1000] /\
       map fill_quantity [mkFill 1000 30 0; mkFill 1000 10 0]
         = map quantity (take k [mkOrder Sell 0 30 950; mkOrder Sell 0 50 1000])
           ++ [quantity s - r]).
Proof.
  apply (buy_consumes_prefix
           (book_with Sell 0 [mkOrder Sell 0 30 950; mkOrder Sell 0 50 1000])
           0 40 1000 [mkOrder Sell 0 30 950; mkOrder Sell 0 50 1000]
           (book_with Sell 0 [mkOrder Sell 0 40 1000])).
  - intros side t l H.
    apply (book_with_inv Sell 0 [mkOrder Sell 0 30 950; mkOrder Sell 0 50 1000])
      in H; [exact (proj2 H)|].
    split; repeat constructor; cbn; unfold AtomicInteger.INT_MAX; lia.
  - unfold valid_quantity, AtomicInteger.INT_MAX. lia.
  - reflexivity.
  - vm_compute. reflexivity.
Defined.

Lemma crossing_quantity_nonneg p sells :
  Forall resting sells -> 0 <= crossing_quantity p sells.
Proof.
  unfold resting. induction 1 as [|s next Hs _ IH]; cbn [crossing_quantity]; [lia|].
  destruct (price s <=? p); lia.
Qed.

Lemma sweep_filled_total p t n sells l n' fs :
  sweep p t n sells = (l, n', fs) ->
  Forall resting sells -> 0 <= n <= AtomicInteger.INT_MAX ->
  filled_total fs = Z.min n (crossing_quantity p sells) /\
  n' = n - filled_total fs.
Proof.
  unfold AtomicInteger.INT_MAX.
  revert n l n' fs. induction sells as [|s next IH]; intros n l n' fs.
  - cbn [sweep crossing_quantity]. intros [= <- <- <-] _ Hn. sums. lia.
  - cbn [crossing_quantity].
    sweep_cases s n p; intros Heq Hall Hn0;
      apply Forall_cons in Hall as [Hs0 Hall];
      pose proof (crossing_quantity_nonneg p next Hall) as Hcq;
      unfold resting, AtomicInteger.INT_MAX in Hs0.
    + injection Heq as <- <- <-. apply Z.eqb_eq in Hs, Hn.
      rewrite Hn, c_int_0. sums. lia.
    + destruct (sweep p t _ next) as [[l0 n0] fs0] eqn:Hrec.
      injection Heq as <- <- <-.
      apply Z.eqb_eq in Hs. apply Z.eqb_neq in Hn.
      assert (Hc : AtomicInteger.c_int (n - Z.min n (quantity s))
                   = n - Z.min n (quantity s)) by c_int_pos.
      rewrite Hc in Hrec.
      assert (Hn1 : 0 <= n - Z.min n (quantity s) <= 2147483647) by lia.
      destruct (IH _ _ _ _ Hrec Hall Hn1) as [Hf Hn'].
      sums. lia.
    + injection Heq as <- <- <-. apply Z.eqb_neq in Hs.
      assert (Hm : Z.min n (quantity s) = n) by lia.
      rewrite Hm, Z.sub_diag, c_int_0. sums. lia.
    + injection Heq as <- <- <-. sums. lia.
Qed.

Lemma crossing_quantity_sorted p sells :
  best_first Sell sells ->
  crossing_quantity p sells
  = total_quantity (List.filter (fun o => price o <=? p) sells).
Proof.
  induction sells as [|s next IH]; intros Hs; [reflexivity|].
  cbn [crossing_quantity List.filter].
  destruct (price s <=? p) eqn:Hc.
  - rewrite total_quantity_cons, IH; [reflexivity|].
    unfold best_first in *. now apply Sorted_inv in Hs.
  - apply best_first_all in Hs.
    rewrite filter_none; [reflexivity|].
    eapply Forall_impl; [exact Hs|]. cbn. intros o Ho. lia.
Qed.

(** X11.  On a book that satisfies the invariant, a [Buy] of a quantity [q]
    from 1 to 2^31 - 1 at price [p] is traded for the smaller of [q] and
    the total quantity of the resting [Sell] orders of its ticker priced
    at most [p]. *)
Theorem buy_filled_quantity self t q p sells b' fills :
  book_inv self ->
  valid_quantity q ->
  sell_orders self !! t = Some sells ->
  add_order self Buy t q p = Ok (b', fills) ->
  filled_total fills
  = Z.min q (total_quantity (List.filter (fun o => price o <=? p) sells)).
Proof.
  intros Hinv Hq Hsells Hadd.
  destruct (book_inv_at self Sell t sells Hinv Hsells) as [Hsorted Hresting].
  apply add_order_Ok in Hadd as (opp & l & n' & Hopp & Hm & _).
  cbn [side_list opposite] in Hopp.
  rewrite Hsells in Hopp. injection Hopp as <-.
  cbn [matching] in Hm. injection Hm as Hm. rewrite (c_int_valid _ Hq) in Hm.
  destruct (sweep_filled_total _ _ _ _ _ _ _ Hm Hresting) as [Hf _].
  - unfold valid_quantity in Hq. lia.
  - now rewrite Hf, crossing_quantity_sorted.
Qed.

(** The theorem at a [Buy] of 100 at price 1000 against resting [Sell]s of
    30 at 950, 50 at 1000 and 60 at 1010: 80 are traded. *)
Lemma buy_filled_quantity_witness :
  filled_total [mkFill 1000 30 0; mkFill 1000 50 0]
  = Z.min 100
      (total_quantity
         (List.filter (fun o => price o <=? 1000)
            [mkOrder Sell 0 30 950; mkOrder Sell 0 50 1000; mkOrder Sell 0 60 1010])).
Proof.
  apply (buy_filled_quantity
           (book_with Sell 0
              [mkOrder Sell 0 30 950; mkOrder Sell 0 50 1000; mkOrder Sell 0 60 1010])
           0 100 1000
           [mkOrder Sell 0 30 950; mkOrder Sell 0 50 1000; mkOrder Sell 0 60 1010]
           (mkBook (buy_orders (book_with Buy 0 [mkOrder Buy 0 20 1000]))
                   (sell_orders (book_with Sell 0 [mkOrder Sell 0 60 1010])))).
  - apply book_with_inv.
    split; repeat constructor; cbn; unfold AtomicInteger.INT_MAX; lia.
  - unfold valid_quantity, AtomicInteger.INT_MAX. lia.
  - reflexivity.
  - vm_compute. reflexivity.
Defined.

(** ** What a call keeps *)

Lemma sweep_Forall (P : Order -> Prop) p t n sells l n' fs :
  (forall o q, P o -> P (set_quantity o q)) ->
  sweep p t n sells = (l, n', fs) ->
  Forall P sells -> Forall P l.
Proof.
  intros HP. revert n l n' fs.
  induction sells as [|s next IH]; intros n l n' fs.
  - cbn [sweep]. now intros [= <- <- <-].
  - sweep_cases s n p; intros Heq Hall;
      pose proof Hall as Hall0; apply Forall_cons in Hall as [Hs0 Hall].
    + now injection Heq as <- <- <-.
    + destruct (sweep p t _ next) as [[l0 n0] fs0] eqn:Hrec.
      injection Heq as <- <- <-. eapply IH; eauto.
    + injection Heq as <- <- <-. constructor; auto.
    + now injection Heq as <- <- <-.
Qed.

Lemma matching_Forall (P : Order -> Prop) side p t n opp l n' fs :
  (forall o q, P o -> P (set_quantity o q)) ->
  matching side p t n opp = Some (l, n', fs) ->
  Forall P opp -> Forall P l.
Proof.
  intros HP Hm. destruct side.
  - cbn [matching] in Hm. injection Hm as Hm. eapply sweep_Forall; eauto.
  - now apply matching_sell_inv in Hm as (-> & _).
Qed.

Lemma insert_chain_Forall (P : Order -> Prop) head new_order :
  Forall P (insert_chain head new_order) <-> P new_order /\ Forall P head.
Proof.
  destruct (insert_chain_split head new_order) as (l1 & l2 & -> & -> & _).
  rewrite !Forall_app, Forall_cons. tauto.
Qed.

Lemma add_order_length_side self ot t q p b' fills side :
  add_order self ot t q p = Ok (b', fills) ->
  length (side_list b' side) = length (side_list self side).
Proof.
  intros H.
  apply add_order_Ok in H as (opp & l & n' & _ & _ & Hafter).
  apply book_after_sides in Hafter as [Hopp Hown].
  destruct (side_cases side ot) as [->| ->].
  - destruct Hown as [[_ ->]|(_ & head & _ & ->)]; [reflexivity|].
    apply pyl_length_insert.
  - rewrite Hopp. apply pyl_length_insert.
Qed.

Lemma add_order_filed self ot t q p b' fills :
  book_filed self ->
  add_order self ot t q p = Ok (b', fills) ->
  book_filed b'.
Proof.
  intros Hself Hadd side k l0 Hl0.
  rewrite (add_order_length_side _ _ _ _ _ _ _ side Hadd).
  apply add_order_Ok in Hadd as (opp & l & n' & Hopp & Hm & Hafter).
  apply book_after_sides in Hafter as [Hopp' Hown].
  destruct (side_cases side ot) as [->| ->].
  - destruct Hown as [[_ Heq]|(Hn & head & Hhead & Heq)]; rewrite Heq in Hl0.
    + eauto.
    + apply pyl_insert_lookup_nat in Hl0 as [[Hk <-]|Hl0]; [|eauto].
      apply insert_chain_Forall. split; [now split|].
      apply pyl_lookup_Some in Hhead as (k' & Hk' & Hhead).
      rewrite Hk in Hk'. injection Hk' as <-. eauto.
  - rewrite Hopp' in Hl0.
    apply pyl_insert_lookup_nat in Hl0 as [[Hk <-]|Hl0]; [|eauto].
    apply pyl_lookup_Some in Hopp as (k' & Hk' & Hopp).
    rewrite Hk in Hk'. injection Hk' as <-.
    eapply matching_Forall; [|exact Hm|eauto].
    now intros o q0 Ho.
Qed.

(** X12.  If every resting order is filed in the array of its own side and
    in the slot that its own ticker denotes, this is still so after a
    call of [add_order] that returns. *)
Theorem book_filed_preserved self ot t q p b' fills :
  book_filed self ->
  add_order self ot t q p = Ok (b', fills) ->
  book_filed b'.
Proof. intros Hself Hadd. eapply add_order_filed; eauto. Qed.

Lemma book_with_length side t l side' :
  length (side_list (book_with side t l) side') = 1024%nat.
Proof.
  unfold book_with.
  destruct side, side'; cbn [side_list set_side set_buy_orders set_sell_orders
                               buy_orders sell_orders OrderBook_init];
    rewrite ?pyl_length_insert; apply length_replicate.
Qed.

Lemma book_with_filed side t l :
  Forall (fun o => order_type o = side /\ ticker o = t) l ->
  book_filed (book_with side t l).
Proof.
  intros Hl side' k l' H.
  pose proof H as H0.
  apply book_with_lookup in H as [->|[-> ->]]; [constructor|].
  unfold book_with in H0. rewrite side_list_set_side in H0.
  apply pyl_insert_lookup_nat in H0 as [[Hk _]|H0].
  - eapply Forall_impl; [exact Hl|]. cbn. intros o [Ho ->].
    split; [assumption|].
    rewrite book_with_length.
    destruct side; cbn [side_list OrderBook_init buy_orders sell_orders] in Hk;
      rewrite length_replicate in Hk; exact Hk.
  - apply OrderBook_init_lookup in H0 as ->. constructor.
Qed.

(** The theorem at a [Buy] of 8 at price 10 for ticker -1 against a
    [Sell] of 5 at price 9 resting for ticker 1023: the rest of the [Buy]
    is filed where ticker -1 is read. *)
Lemma book_filed_preserved_witness :
  book_filed (book_with Buy (-1) [mkOrder Buy (-1) 3 10]).
Proof.
  apply (book_filed_preserved (book_with Sell 1023 [mkOrder Sell 1023 5 9])
           Buy (-1) 8 10
           (book_with Buy (-1) [mkOrder Buy (-1) 3 10]) [mkFill 10 5 (-1)]).
  - apply book_with_filed. repeat constructor.
  - vm_compute. reflexivity.
Defined.

(** X13.  A call of [add_order] that returns leaves the number of slots of
    the two arrays as it was. *)
Theorem add_order_lengths self ot t q p b' fills :
  add_order self ot t q p = Ok (b', fills) ->
  length (buy_orders b') = length (buy_orders self) /\
  length (sell_orders b') = length (sell_orders self).
Proof.
  intros H. split.
  - apply (add_order_length_side _ _ _ _ _ _ _ Buy H).
  - apply (add_order_length_side _ _ _ _ _ _ _ Sell H).
Qed.

(** The theorem at a [Buy] of 40 on the initial book. *)
Lemma add_order_lengths_witness :
  length (buy_orders (book_with Buy 0 [mkOrder Buy 0 40 10]))
    = length (buy_orders OrderBook_init) /\
  length (sell_orders (book_with Buy 0 [mkOrder Buy 0 40 10]))
    = length (sell_orders OrderBook_init).
Proof.
  apply (add_order_lengths OrderBook_init Buy 0 40 10
           (book_with Buy 0 [mkOrder Buy 0 40 10]) []).
  vm_compute. reflexivity.
Defined.

(** ** The book is never crossed *)

Lemma sweep_uncrossed p t n sells l n' fs :
  sweep p t n sells = (l, n', fs) ->
  best_first Sell sells ->
  n' <> 0 ->
  Forall (fun so => p < price so) l.
Proof.
  intros Hm Hsorted Hn'.
  pose proof (sweep_best_first Sell _ _ _ _ _ _ _ Hm Hsorted) as Hl.
  pose proof (sweep_stops _ _ _ _ _ _ _ Hm Hn') as Hstop.
  destruct l as [|h rest]; [constructor|]. now apply best_first_above.
Qed.

Lemma sell_rests_above p buys :
  best_first Buy buys ->
  match buys with
  | [] => True
  | bo :: _ => price bo < p
  end ->
  Forall (fun bo => price bo < p) buys.
Proof.
  intros Hsorted Hhead. destruct buys as [|bo rest]; [constructor|].
  apply best_first_all in Hsorted.
  constructor; [assumption|].
  eapply Forall_impl; [exact Hsorted|]. cbn. intros o Ho. lia.
Qed.

(** A ticker from 0 on, or any ticker when the two arrays have the same
    length, denotes the same position in both arrays. *)
Lemma py_index_same_slot len1 len2 t k1 k2 :
  0 <= t \/ len1 = len2 ->
  py_index len1 t = Some k1 -> py_index len2 t = Some k2 -> k1 = k2.
Proof.
  intros [H0| ->] H1 H2.
  - apply py_index_nonneg_Some in H1, H2; try assumption. congruence.
  - congruence.
Qed.

Lemma pyl_insert_lookup_nat_eq {A} (lst : list A) t k x :
  py_index (length lst) t = Some k -> <[t := x]> lst !! k = Some x.
Proof.
  intros Hk. rewrite (pyl_insert_index _ _ _ _ Hk).
  apply list_lookup_insert_eq. now apply py_index_lt in Hk.
Qed.

Lemma add_order_uncrossed self ot t q p b' fills :
  book_best_first self ->
  book_uncrossed self ->
  0 <= t \/ length (buy_orders self) = length (sell_orders self) ->
  add_order self ot t q p = Ok (b', fills) ->
  book_uncrossed b'.
Proof.
  intros Hsorted Hself Hslot Hadd k bl sl Hbl Hsl.
  apply add_order_Ok in Hadd as (opp & l & n' & Hopp & Hm & Hafter).
  apply book_after_sides in Hafter as [Hopp' Hown].
  pose proof (book_best_first_at _ _ _ _ Hsorted Hopp) as Hopp_sorted.
  apply pyl_lookup_Some in Hopp as (ko & Hko & Hopp).
  destruct ot; cbn [side_list opposite] in Hopp, Hko, Hopp', Hown, Hopp_sorted.
  - (* Buy: the [Sell] list of position [ko] is what the sweep left *)
    cbn [matching] in Hm. injection Hm as Hm.
    assert (Hold : forall bl0, buy_orders self !! ko = Some bl0 ->
                     Forall (fun bo => Forall (fun so => price bo < price so) l) bl0).
    { intros bl0 Hbl0. specialize (Hself ko bl0 opp Hbl0 Hopp).
      eapply Forall_impl; [exact Hself|]. cbn. intros bo Hbo.
      eapply (sweep_Forall (fun so => price bo < price so)); eauto. }
    assert (Hbuy : buy_orders self !! k = Some bl \/
                   (0 < n' /\ exists head,
                      py_index (length (buy_orders self)) t = Some k /\
                      buy_orders self !! k = Some head /\
                      bl = insert_chain head (mkOrder Buy t n' p))).
    { destruct Hown as [[_ Heq]|(Hn & head & Hhead & Heq)]; rewrite Heq in Hbl;
        [now left|].
      apply pyl_insert_lookup_nat in Hbl as [[Hk <-]|Hbl]; [|now left].
      right. split; [assumption|]. exists head.
      apply pyl_lookup_Some in Hhead as (k' & Hk' & Hhead).
      rewrite Hk in Hk'. injection Hk' as <-. auto. }
    rewrite Hopp' in Hsl.
    destruct (decide (k = ko)) as [->|Hne].
    + rewrite (pyl_insert_lookup_nat_eq _ _ _ _ Hko) in Hsl. injection Hsl as <-.
      destruct Hbuy as [Hbl0|(Hn & head & Hk & Hhead & ->)]; [auto|].
      apply insert_chain_Forall. split; [|auto].
      cbn [price]. apply (sweep_uncrossed _ _ _ _ _ _ _ Hm Hopp_sorted). lia.
    + rewrite pyl_insert_lookup_nat_ne in Hsl by congruence.
      destruct Hbuy as [Hbl0|(Hn & head & Hk & Hhead & ->)]; [eauto|].
      exfalso. apply Hne.
      exact (py_index_same_slot _ _ _ _ _ Hslot Hk Hko).
  - (* Sell: the [Buy] array is unchanged *)
    apply matching_sell_inv in Hm as (-> & _ & _ & Hhead).
    assert (Hb : buy_orders b' = buy_orders self).
    { rewrite Hopp', (pyl_insert_index _ _ _ _ Hko). now apply list_insert_id. }
    rewrite Hb in Hbl.
    destruct Hown as [[_ Heq]|(Hn & head & Hown & Heq)]; rewrite Heq in Hsl.
    + eauto.
    + apply pyl_insert_lookup_nat in Hsl as [[Hk <-]|Hsl]; [|eauto].
      apply pyl_lookup_Some in Hown as (k' & Hk' & Hown).
      rewrite Hk in Hk'. injection Hk' as <-.
      assert (Hsame : ko = k).
      { apply (py_index_same_slot _ _ t _ _ Hslot Hko Hk). }
      subst ko. rewrite Hopp in Hbl. injection Hbl as <-.
      pose proof (sell_rests_above p opp Hopp_sorted Hhead) as Hab.
      specialize (Hself k opp head Hopp Hown).
      apply Forall_forall. intros bo Hbo.
      apply insert_chain_Forall. split.
      * cbn [price]. now apply (proj1 (Forall_forall _ _) Hab).
      * now apply (proj1 (Forall_forall _ _) Hself).
Qed.

(** X14.  On a book whose lists are ordered best price first and in which
    no resting [Buy] is priced at or above a resting [Sell] of the same
    slot, a call of [add_order] that returns, for a ticker from 0 on or
    on a book whose two arrays have the same length, leaves no resting
    [Buy] priced at or above a resting [Sell] of the same slot. *)
Theorem book_uncrossed_preserved self ot t q p b' fills :
  book_best_first self ->
  book_uncrossed self ->
  0 <= t \/ length (buy_orders self) = length (sell_orders self) ->
  add_order self ot t q p = Ok (b', fills) ->
  book_uncrossed b'.
Proof. intros Hsorted Hself Hslot Hadd. eapply add_order_uncrossed; eauto. Qed.

Lemma OrderBook_init_uncrossed : book_uncrossed OrderBook_init.
Proof.
  intros k bl sl Hbl Hsl.
  apply (OrderBook_init_lookup Buy) in Hbl as ->. constructor.
Qed.

Lemma OrderBook_init_filed : book_filed OrderBook_init.
Proof. intros side t l H. apply OrderBook_init_lookup in H as ->. constructor. Qed.

Lemma book_with_best_first side t l :
  best_first side l -> book_best_first (book_with side t l).
Proof.
  intros Hl side' t' l' H.
  apply book_with_lookup in H as [->|[-> ->]]; [constructor|assumption].
Qed.

(** The theorem at a [Buy] of 8 at price 10 on a book with a [Sell] of 5
    at price 9 resting: the [Sell] is drained and the [Buy] rests alone. *)
Lemma book_uncrossed_preserved_witness :
  book_uncrossed (book_with Buy 0 [mkOrder Buy 0 3 10]).
Proof.
  apply (book_uncrossed_preserved (book_with Sell 0 [mkOrder Sell 0 5 9]) Buy 0 8 10
           (book_with Buy 0 [mkOrder Buy 0 3 10]) [mkFill 10 5 0]).
  - apply book_with_best_first. repeat constructor.
  - intros k bl sl Hbl Hsl.
    destruct (book_with_lookup Sell 0 _ Buy k bl Hbl) as [Hnil|[Hd _]];
      [subst bl; constructor|discriminate].
  - left. lia.
  - vm_compute. reflexivity.
Defined.

(** ** Books reached from the initial book *)

Lemma run_invariants subs :
  forall self b' fills,
    book_inv self -> book_filed self -> book_uncrossed self ->
    length (buy_orders self) = length (sell_orders self) ->
    Forall (fun s => valid_quantity (sub_quantity s)) subs ->
    run self subs = Ok (b', fills) ->
    book_inv b' /\ book_filed b' /\ book_uncrossed b' /\
    length (buy_orders b') = length (buy_orders self) /\
    length (sell_orders b') = length (sell_orders self).
Proof.
  induction subs as [|s subs IH];
    intros self b' fills Hinv Hfiled Hunc Hlen Hall Hrun.
  - cbn in Hrun. injection Hrun as <- <-. auto.
  - apply Forall_cons in Hall as [Hq Hall]. cbn [run] in Hrun.
    destruct (add_order self (sub_type s) (sub_ticker s) (sub_quantity s)
                (sub_price s)) as [[self1 trades]| |] eqn:Hadd;
      cbn [mbind result_bind] in Hrun; try discriminate.
    destruct (run self1 subs) as [[self2 more]| |] eqn:Hrest;
      cbn [mbind result_bind] in Hrun; try discriminate.
    injection Hrun as <- <-.
    apply book_inv_split in Hinv as [Hsorted Hresting].
    assert (Hinv1 : book_inv self1).
    { apply book_inv_split. split.
      - eapply add_order_best_first; eauto.
      - eapply add_order_resting; eauto. }
    pose proof (add_order_filed _ _ _ _ _ _ _ Hfiled Hadd) as Hfiled1.
    pose proof (add_order_uncrossed _ _ _ _ _ _ _ Hsorted Hunc (or_intror Hlen) Hadd)
      as Hunc1.
    pose proof (add_order_length_side _ _ _ _ _ _ _ Buy Hadd) as Hlb.
    pose proof (add_order_length_side _ _ _ _ _ _ _ Sell Hadd) as Hls.
    cbn [side_list] in Hlb, Hls.
    assert (Hlen1 : length (buy_orders self1) = length (sell_orders self1))
      by congruence.
    destruct (IH _ _ _ Hinv1 Hfiled1 Hunc1 Hlen1 Hall Hrest)
      as (H1 & H2 & H3 & H4 & H5).
    split; [exact H1|]. split; [exact H2|]. split; [exact H3|].
    split; congruence.
Qed.

(** X15.  Every book reached from the initial book by calls of [add_order]
    that return, with quantities from 1 to 2^31 - 1 and any tickers, has
    its lists ordered best price first with positive resting quantities,
    every order filed under its own side and in the slot its ticker
    denotes, no resting [Buy] priced at or above a resting [Sell] of the
    same slot, and 1024 slots in each array. *)
Theorem reachable_book_invariants subs b' fills :
  Forall (fun s => valid_quantity (sub_quantity s)) subs ->
  run OrderBook_init subs = Ok (b', fills) ->
  book_inv b' /\ book_filed b' /\ book_uncrossed b' /\
  length (buy_orders b') = 1024%nat /\ length (sell_orders b') = 1024%nat.
Proof.
  intros Hall Hrun.
  destruct (run_invariants subs OrderBook_init b' fills OrderBook_init_inv
              OrderBook_init_filed OrderBook_init_uncrossed eq_refl Hall Hrun)
    as (H1 & H2 & H3 & H4 & H5).
  split; [exact H1|]. split; [exact H2|]. split; [exact H3|].
  unfold OrderBook_init in H4, H5. cbn [buy_orders sell_orders] in H4, H5.
  rewrite length_replicate in H4, H5. split; assumption.
Qed.

(** The theorem at a [Sell] of 50 at 1000 for ticker 1023, a [Sell] of 30
    at 950 for ticker -1, read as slot 1023, and a [Buy] of 100 at 1000
    for ticker -1. *)
Lemma reachable_book_invariants_witness :
  book_inv (book_with Buy 1023 [mkOrder Buy (-1) 20 1000]) /\
  book_filed (book_with Buy 1023 [mkOrder Buy (-1) 20 1000]) /\
  book_uncrossed (book_with Buy 1023 [mkOrder Buy (-1) 20 1000]) /\
  length (buy_orders (book_with Buy 1023 [mkOrder Buy (-1) 20 1000])) = 1024%nat /\
  length (sell_orders (book_with Buy 1023 [mkOrder Buy (-1) 20 1000])) = 1024%nat.
Proof.
  apply (reachable_book_invariants
           [mkSubmission Sell 1023 50 1000; mkSubmission Sell (-1) 30 950;
            mkSubmission Buy (-1) 100 1000]
           (book_with Buy 1023 [mkOrder Buy (-1) 20 1000])
           [mkFill 1000 30 (-1); mkFill 1000 50 (-1)]).
  - unfold valid_quantity, AtomicInteger.INT_MAX.
    repeat constructor; cbn; lia.
  - vm_compute. reflexivity.
Defined.

(** ** Calls for different tickers *)

Lemma book_ext b b' :
  (forall side, side_list b side = side_list b' side) -> b = b'.
Proof.
  intros H. destruct b as [bb bs], b' as [bb' bs'].
  pose proof (H Buy) as HB. pose proof (H Sell) as HS.
  cbn in HB, HS. congruence.
Qed.

Lemma insert_slot_id (lst : list (list Order)) t : <[t := slot lst t]> lst = lst.
Proof.
  unfold slot. destruct (lst !! t) as [l|] eqn:Hl.
  - now apply pyl_insert_id.
  - apply pyl_lookup_None in Hl. now rewrite pyl_insert_unfold, Hl.
Qed.

Lemma pyl_insert_insert_nonneg_ne {A} (lst : list A) t t' x y :
  0 <= t -> 0 <= t' -> t <> t' ->
  <[t := x]> (<[t' := y]> lst) = <[t' := y]> (<[t := x]> lst).
Proof.
  intros H0 H0' Hne.
  destruct (py_index_nonneg_ne (length lst) t t' H0 H0' Hne) as [H|[H H']].
  - now apply pyl_insert_insert_ne.
  - rewrite (pyl_insert_unfold lst t'), H'.
    rewrite (pyl_insert_unfold lst t), H.
    now rewrite (pyl_insert_unfold lst t'), H'.
Qed.

Lemma slot_agree (lst lst' : list (list Order)) t :
  lst' !! t = lst !! t -> slot lst' t = slot lst t.
Proof. unfold slot. now intros ->. Qed.

(** After a call, each array is the array before with slot [t] replaced. *)
Lemma book_after_slots self ot t p opp l n' b' :
  side_list self (opposite ot) !! t = Some opp ->
  book_after self ot t p l n' b' ->
  forall side,
    side_list b' side = <[t := slot (side_list b' side) t]> (side_list self side).
Proof.
  intros Hopp Hafter side.
  apply book_after_sides in Hafter as [Hopp' Hown].
  destruct (side_cases side ot) as [->| ->].
  - destruct Hown as [[_ Heq]|(_ & head & Hhead & Heq)]; rewrite Heq.
    + now rewrite insert_slot_id.
    + now rewrite slot_insert by (eapply pyl_lookup_in_bounds; eauto).
  - rewrite Hopp'. now rewrite slot_insert by (eapply pyl_lookup_in_bounds; eauto).
Qed.

(** The outcome of a call depends on the two lists of slot [t] only. *)
Lemma add_order_local self self' ot t q p b' fs :
  add_order self ot t q p = Ok (b', fs) ->
  (forall side, side_list self' side !! t = side_list self side !! t) ->
  exists b'',
    add_order self' ot t q p = Ok (b'', fs) /\
    forall side,
      side_list b'' side = <[t := slot (side_list b' side) t]> (side_list self' side).
Proof.
  intros Hadd Hagree.
  apply add_order_Ok in Hadd as (opp & l & n' & Hopp & Hm & Hafter).
  assert (Hopp1 : side_list self' (opposite ot) !! t = Some opp)
    by now rewrite Hagree.
  pose proof (book_after_sides _ _ _ _ _ _ _ Hafter) as [Hb'opp Hb'own].
  assert (Hslot_opp : slot (side_list b' (opposite ot)) t = l).
  { rewrite Hb'opp. apply slot_insert. eapply pyl_lookup_in_bounds; eauto. }
  destruct Hb'own as [[Hn Heq]|(Hn & head & Hhead & Heq)].
  - set (b'' := set_side self' (opposite ot)
                  (<[t := l]> (side_list self' (opposite ot)))).
    assert (Hafter' : book_after self' ot t p l n' b'') by (left; now split).
    exists b''. split; [eapply add_order_of_after; eauto|].
    intros side. rewrite (book_after_slots _ _ _ _ _ _ _ _ Hopp1 Hafter' side).
    f_equal. destruct (side_cases side ot) as [->| ->].
    + unfold b''. rewrite side_list_set_side_ne, Heq. now apply slot_agree.
    + unfold b''. rewrite side_list_set_side, Hslot_opp.
      apply slot_insert. eapply pyl_lookup_in_bounds; eauto.
  - assert (Hhead1 : side_list self' ot !! t = Some head) by now rewrite Hagree.
    set (self1 := set_side self' (opposite ot)
                    (<[t := l]> (side_list self' (opposite ot)))).
    set (b'' := set_side self1 ot
                  (<[t := insert_chain head (mkOrder ot t n' p)]>
                     (side_list self' ot))).
    assert (Hafter' : book_after self' ot t p l n' b'').
    { right. split; [assumption|]. exists head. now split. }
    exists b''. split; [eapply add_order_of_after; eauto|].
    intros side. rewrite (book_after_slots _ _ _ _ _ _ _ _ Hopp1 Hafter' side).
    f_equal. destruct (side_cases side ot) as [->| ->].
    + unfold b''. rewrite side_list_set_side, Heq.
      rewrite !slot_insert by (eapply pyl_lookup_in_bounds; eauto). reflexivity.
    + assert (Hb : side_list b'' (opposite ot)
                   = <[t := l]> (side_list self' (opposite ot)))
        by (unfold b'', self1; now destruct ot).
      rewrite Hb, Hslot_opp. apply slot_insert. eapply pyl_lookup_in_bounds; eauto.
Qed.

(** X16.  Two calls of [add_order] for different tickers, both from 0
    on, commute: if the first then the second return, then the second
    then the first return the same trades, call by call, and lead to the
    same book. *)
Theorem add_order_commute self ot1 t1 q1 p1 ot2 t2 q2 p2 b1 f1 b12 f2 :
  0 <= t1 -> 0 <= t2 ->
  t1 <> t2 ->
  add_order self ot1 t1 q1 p1 = Ok (b1, f1) ->
  add_order b1 ot2 t2 q2 p2 = Ok (b12, f2) ->
  exists b2,
    add_order self ot2 t2 q2 p2 = Ok (b2, f2) /\
    add_order b2 ot1 t1 q1 p1 = Ok (b12, f1).
Proof.
  intros Ht1 Ht2 Hne H1 H2.
  assert (Hagree2 : forall side, side_list self side !! t2 = side_list b1 side !! t2).
  { intros side. symmetry.
    apply (add_order_other_tickers _ _ _ _ _ _ _ side t2 H1); auto. }
  destruct (add_order_local b1 self ot2 t2 q2 p2 b12 f2 H2 Hagree2)
    as (b2 & Hb2 & Hb2s).
  exists b2. split; [exact Hb2|].
  assert (Hagree1 : forall side, side_list b2 side !! t1 = side_list self side !! t1).
  { intros side.
    apply (add_order_other_tickers _ _ _ _ _ _ _ side t1 Hb2); auto. }
  destruct (add_order_local self b2 ot1 t1 q1 p1 b1 f1 H1 Hagree1)
    as (b21 & Hb21 & Hb21s).
  rewrite Hb21. f_equal. f_equal. apply book_ext. intros side.
  rewrite Hb21s, Hb2s.
  pose proof H1 as H1'. pose proof H2 as H2'.
  apply add_order_Ok in H1' as (opp1 & l1 & n1 & Hopp1 & _ & Hafter1).
  apply add_order_Ok in H2' as (opp2 & l2 & n2 & Hopp2 & _ & Hafter2).
  rewrite (book_after_slots _ _ _ _ _ _ _ _ Hopp2 Hafter2 side) at 2.
  rewrite (book_after_slots _ _ _ _ _ _ _ _ Hopp1 Hafter1 side) at 2.
  now apply pyl_insert_insert_nonneg_ne.
Qed.

(** The theorem at a [Buy] of 8 for ticker 0, against a resting [Sell] of
    5, and a [Sell] of 4 for ticker 1. *)
Lemma add_order_commute_witness :
  exists b2,
    add_order (book_with Sell 0 [mkOrder Sell 0 5 9]) Sell 1 4 20 = Ok (b2, []) /\
    add_order b2 Buy 0 8 10
      = Ok (mkBook (buy_orders (book_with Buy 0 [mkOrder Buy 0 3 10]))
                   (sell_orders (book_with Sell 1 [mkOrder Sell 1 4 20])),
            [mkFill 10 5 0]).
Proof.
  apply (add_order_commute (book_with Sell 0 [mkOrder Sell 0 5 9])
           Buy 0 8 10 Sell 1 4 20
           (book_with Buy 0 [mkOrder Buy 0 3 10])).
  - lia.
  - lia.
  - lia.
  - vm_compute. reflexivity.
  - vm_compute. reflexivity.
Defined.

(** ** The outcome of a [Buy], by the quantity on offer *)

Lemma sweep_exhausts p t n sells l n' fs :
  sweep p t n sells = (l, n', fs) ->
  Forall resting sells ->
  best_first Sell sells ->
  0 <= n <= AtomicInteger.INT_MAX ->
  crossing_quantity p sells < n ->
  l = List.filter (fun o => negb (price o <=? p)) sells.
Proof.
  unfold AtomicInteger.INT_MAX.
  revert n l n' fs. induction sells as [|s next IH]; intros n l n' fs.
  - cbn [sweep]. now intros [= <- <- <-].
  - cbn [crossing_quantity List.filter].
    sweep_cases s n p; intros Heq Hall Hsorted Hn0 Hlt;
      apply Forall_cons in Hall as [Hs0 Hall];
      pose proof (crossing_quantity_nonneg p next Hall) as Hcq;
      unfold resting, AtomicInteger.INT_MAX in Hs0; cbn [negb].
    + apply Z.eqb_eq in Hs, Hn. lia.
    + destruct (sweep p t _ next) as [[l0 n0] fs0] eqn:Hrec.
      injection Heq as <- <- <-.
      apply Z.eqb_eq in Hs. apply Z.eqb_neq in Hn.
      assert (Hc : AtomicInteger.c_int (n - Z.min n (quantity s))
                   = n - Z.min n (quantity s)) by c_int_pos.
      rewrite Hc in Hrec.
      unfold best_first in Hsorted. apply Sorted_inv in Hsorted as [Hsorted _].
      apply (IH _ _ _ _ Hrec Hall Hsorted); lia.
    + apply Z.eqb_neq in Hs. lia.
    + injection Heq as <- <- <-. f_equal.
      apply best_first_all in Hsorted. symmetry. apply filter_all.
      eapply Forall_impl; [exact Hsorted|]. cbn. intros o Ho. lia.
Qed.

(** X17.  On a book that satisfies the invariant, let [L] be the total
    quantity of the resting [Sell] orders of the ticker priced at most
    [p].  A [Buy] of [q] at price [p], with [q] from 1 to 2^31 - 1, that
    finds [q <= L] leaves the [Buy] array as it was; one that finds
    [L < q] removes every [Sell] of the ticker priced at most [p], keeps
    the others, and comes to rest with the quantity [q - L]. *)
Theorem buy_outcome self t q p sells head b' fills :
  book_inv self ->
  valid_quantity q ->
  sell_orders self !! t = Some sells ->
  buy_orders self !! t = Some head ->
  add_order self Buy t q p = Ok (b', fills) ->
  let L := total_quantity (List.filter (fun o => price o <=? p) sells) in
  (q <= L -> buy_orders b' = buy_orders self) /\
  (L < q ->
   buy_orders b'
     = <[t := insert_chain head (mkOrder Buy t (q - L) p)]> (buy_orders self) /\
   sell_orders b'
     = <[t := List.filter (fun o => negb (price o <=? p)) sells]>
         (sell_orders self)).
Proof.
  intros Hinv Hq Hsells Hhead Hadd L.
  destruct (book_inv_at self Sell t sells Hinv Hsells) as [Hsorted Hresting].
  apply add_order_Ok in Hadd as (opp & l & n' & Hopp & Hm & Hafter).
  cbn [side_list opposite] in Hopp.
  rewrite Hsells in Hopp. injection Hopp as <-.
  cbn [matching] in Hm. injection Hm as Hm. rewrite (c_int_valid _ Hq) in Hm.
  assert (Hrange : 0 <= q <= AtomicInteger.INT_MAX)
    by (unfold valid_quantity in Hq; lia).
  destruct (sweep_filled_total _ _ _ _ _ _ _ Hm Hresting Hrange) as [Hf Hn'].
  rewrite (crossing_quantity_sorted p sells Hsorted) in Hf. fold L in Hf.
  apply book_after_sides in Hafter as [Hopp' Hown].
  cbn [side_list opposite] in Hopp', Hown.
  split.
  - intros Hle. destruct Hown as [[_ Heq]|[Hn _]]; [exact Heq|lia].
  - intros Hlt. destruct Hown as [[Hn _]|(Hn & head' & Hhead' & Heq)]; [lia|].
    rewrite Hhead in Hhead'. injection Hhead' as <-.
    assert (Hrem : n' = q - L) by lia. rewrite Hrem in Heq.
    split; [exact Heq|]. rewrite Hopp'. f_equal.
    apply (sweep_exhausts _ _ _ _ _ _ _ Hm Hresting Hsorted Hrange).
    rewrite (crossing_quantity_sorted p sells Hsorted). exact Hlt.
Qed.

(** The theorem at a [Buy] of 100 at price 1000 against resting [Sell]s of
    30 at 950, 50 at 1000 and 60 at 1010: 80 are on offer, 20 rest. *)
Lemma buy_outcome_witness :
  let sells :=
    [mkOrder Sell 0 30 950; mkOrder Sell 0 50 1000; mkOrder Sell 0 60 1010] in
  let b' :=
    mkBook (buy_orders (book_with Buy 0 [mkOrder Buy 0 20 1000]))
           (sell_orders (book_with Sell 0 [mkOrder Sell 0 60 1010])) in
  let L := total_quantity (List.filter (fun o => price o <=? 1000) sells) in
  (100 <= L -> buy_orders b' = buy_orders (book_with Sell 0 sells)) /\
  (L < 100 ->
   buy_orders b'
     = <[0 := insert_chain [] (mkOrder Buy 0 (100 - L) 1000)]>
         (buy_orders (book_with Sell 0 sells)) /\
   sell_orders b'
     = <[0 := List.filter (fun o => negb (price o <=? 1000)) sells]>
         (sell_orders (book_with Sell 0 sells))).
Proof.
  cbv zeta.
  apply (buy_outcome
           (book_with Sell 0
              [mkOrder Sell 0 30 950; mkOrder Sell 0 50 1000; mkOrder Sell 0 60 1010])
           0 100 1000
           [mkOrder Sell 0 30 950; mkOrder Sell 0 50 1000; mkOrder Sell 0 60 1010]
           []
           (mkBook (buy_orders (book_with Buy 0 [mkOrder Buy 0 20 1000]))
                   (sell_orders (book_with Sell 0 [mkOrder Sell 0 60 1010])))
           [mkFill 1000 30 0; mkFill 1000 50 0]).
  - apply book_with_inv.
    split; repeat constructor; cbn; unfold AtomicInteger.INT_MAX; lia.
  - unfold valid_quantity, AtomicInteger.INT_MAX. lia.
  - reflexivity.
  - reflexivity.
  - vm_compute. reflexivity.
Defined.
